(** * EasyMarkdown: the editor's text transforms and undo/redo history

    A shallow embedding of [src/App.jsx]: the [App] component's state
    ([text], the two history stacks, the textarea's selection) and the
    handlers that change it ([saveHistory], [handleUndo], [handleRedo],
    [wrapSelection], [insertAtLineStart], [handleKeyDown]).

    A JavaScript string is modelled by [string]: one [ascii] per code unit
    (every literal of the source is ASCII).  Offsets into a string are
    [nat], as the textarea's [selectionStart]/[selectionEnd] are unsigned.
    An array used as a stack is a [list] with its most recent entry last. *)

From Stdlib Require Import Bool Arith ZArith Lia List Ascii String.
From Stdlib Require Import Permutation DecimalString.
From Stdlib Require DecimalNat.
Import ListNotations.

Open Scope list_scope.
Open Scope string_scope.

(** ** The JavaScript primitives the component calls *)

Module JS.

(** ["\n"]. *)
Definition newline : ascii := "010"%char.
Definition nl : string := String newline "".

(** [s.slice(start, end)] for non-negative indices: both are clamped to
    the length, and an end before the start gives the empty string. *)
Definition slice (s : string) (start finish : nat) : string :=
  let len := String.length s in
  let from := Nat.min start len in
  let to := Nat.min finish len in
  substring from (to - from) s.

(** [s.slice(start)]: the end defaults to the length. *)
Definition sliceFrom (s : string) (start : nat) : string :=
  slice s start (String.length s).

(** [s.split(sep)] for a one-character separator: n separators give
    n + 1 pieces, and the empty string gives one empty piece. *)
Fixpoint split (sep : ascii) (s : string) : list string :=
  match s with
  | EmptyString => [EmptyString]
  | String c rest =>
      if Ascii.eqb c sep then EmptyString :: split sep rest
      else match split sep rest with
           | piece :: pieces => String c piece :: pieces
           | [] => [String c EmptyString]
           end
  end.

(** [lines.join(sep)]. *)
Definition join (sep : string) (pieces : list string) : string :=
  String.concat sep pieces.

(** [array.push(x)], [array.pop()] and [array.shift()]; the array is
    returned along with the popped entry ([None] is [undefined]). *)
Definition push {A} (l : list A) (x : A) : list A := (l ++ [x])%list.

Fixpoint pop {A} (l : list A) : option A * list A :=
  match l with
  | [] => (None, [])
  | [x] => (Some x, [])
  | y :: rest => let (top, rest') := pop rest in (top, y :: rest')
  end.

Definition shift {A} (l : list A) : list A := tl l.

(** Truthiness of what [prompt] returns: [null] and [""] are falsy. *)
Definition truthy (answer : option string) : bool :=
  match answer with
  | None => false
  | Some s => negb (s =? "")
  end.

(** [c.toLowerCase()] on the ASCII range. *)
Definition lowerChar (c : ascii) : ascii :=
  let n := nat_of_ascii c in
  if ((65 <=? n) && (n <=? 90))%nat then ascii_of_nat (n + 32) else c.

Fixpoint toLowerCase (s : string) : string :=
  match s with
  | EmptyString => EmptyString
  | String c rest => String (lowerChar c) (toLowerCase rest)
  end.

(** A number as [parseInt] returns it: [NaN] or an integer.  The value
    is exact up to 2^53 in magnitude, where every integer is a double;
    above, the rounding to a double is not modelled (the sign, and being
    [NaN] or not, are as in JavaScript for every input). *)
Inductive number : Type :=
| NaN
| Num (z : Z).

(** [n > 0]: false for [NaN]. *)
Definition gt0 (n : number) : bool :=
  match n with
  | NaN => false
  | Num z => (0 <? z)%Z
  end.

Definition isWhiteSpace (c : ascii) : bool :=
  let n := nat_of_ascii c in
  (((9 <=? n) && (n <=? 13)) || (n =? 32) || (n =? 160))%nat.

Fixpoint trimStart (s : string) : string :=
  match s with
  | EmptyString => EmptyString
  | String c rest => if isWhiteSpace c then trimStart rest else s
  end.

Definition digitValue (c : ascii) : option Z :=
  let n := nat_of_ascii c in
  if ((48 <=? n) && (n <=? 57))%nat then Some (Z.of_nat (n - 48))
  else if ((97 <=? n) && (n <=? 122))%nat then Some (Z.of_nat (n - 87))
  else if ((65 <=? n) && (n <=? 90))%nat then Some (Z.of_nat (n - 55))
  else None.

(** The longest prefix of radix-[R] digits, read as an integer; [acc] is
    [NaN] until a digit has been read. *)
Fixpoint parseDigits (R : Z) (s : string) (acc : number) : number :=
  match s with
  | EmptyString => acc
  | String c rest =>
      match digitValue c with
      | Some d =>
          if (d <? R)%Z
          then parseDigits R rest
                 (Num (R * (match acc with NaN => 0 | Num z => z end) + d))
          else acc
      | None => acc
      end
  end.

Definition negate (n : number) : number :=
  match n with
  | NaN => NaN
  | Num z => Num (- z)
  end.

(** [parseInt(answer)] with no radix: [null] is first converted to the
    string "null"; leading white space is skipped, then a sign, then a
    "0x"/"0X" prefix selects radix 16. *)
Definition parseInt (answer : option string) : number :=
  let input := match answer with None => "null" | Some s => s end in
  let s := trimStart input in
  let (neg, s1) :=
    match s with
    | String "-" rest => (true, rest)
    | String "+" rest => (false, rest)
    | _ => (false, s)
    end in
  let n :=
    match s1 with
    | String "0" (String "x" rest) => parseDigits 16 rest NaN
    | String "0" (String "X" rest) => parseDigits 16 rest NaN
    | _ => parseDigits 10 s1 NaN
    end in
  if neg then negate n else n.

(** [`${n}`] for a non-negative integer: its decimal digits. *)
Definition numberToString (n : nat) : string :=
  NilEmpty.string_of_uint (Nat.to_uint n).

(** [for (let c = 0; c < count; c++) body]: [c] is the counter's current
    value and [count] the iterations left. *)
Fixpoint forLoop {S} (count c : nat) (body : nat -> S -> S) (s : S) : S :=
  match count with
  | O => s
  | Datatypes.S k => forLoop k (c + 1) body (body c s)
  end.

End JS.

(** ** The component's state *)

(** The textarea's selection, as the DOM reports it. *)
Record textarea : Type := mkTextarea {
  selectionStart : nat;
  selectionEnd : nat
}.

(** [text] is the React state, [undoStack]/[redoStack] the two refs'
    [current] arrays and [textareaRef] the textarea.  [captures] is ghost
    state: the number of calls of [saveHistory] so far; nothing reads it.
    [textareaRef] changes only where the code assigns it (the deferred
    callback of [wrapSelection]) or the user moves the selection; where
    the browser moves the caret by itself when the value of the textarea
    is replaced is not modelled. *)
Record App : Type := mkApp {
  text : string;
  undoStack : list string;
  redoStack : list string;
  textareaRef : textarea;
  captures : nat
}.

Definition setText (value : string) (a : App) : App :=
  mkApp value (undoStack a) (redoStack a) (textareaRef a) (captures a).

(** ** History *)

Definition saveHistory (a : App) : App :=
  let undo1 := JS.push (undoStack a) (text a) in
  let undo2 := if (100 <? List.length undo1)%nat then JS.shift undo1 else undo1 in
  mkApp (text a) undo2 [] (textareaRef a) (S (captures a)).

Definition handleUndo (a : App) : App :=
  if Nat.eqb (List.length (undoStack a)) 0 then a
  else
    let redo1 := JS.push (redoStack a) (text a) in
    match JS.pop (undoStack a) with
    | (Some top, undo1) => mkApp top undo1 redo1 (textareaRef a) (captures a)
    | (None, _) => a (* not reached: the stack is not empty *)
    end.

Definition handleRedo (a : App) : App :=
  if Nat.eqb (List.length (redoStack a)) 0 then a
  else
    let undo1 := JS.push (undoStack a) (text a) in
    match JS.pop (redoStack a) with
    | (Some top, redo1) => mkApp top undo1 redo1 (textareaRef a) (captures a)
    | (None, _) => a (* not reached: the stack is not empty *)
    end.

(** ** Transforms *)

(** The default value of a parameter: used when the argument is omitted. *)
Definition orDefault (arg : option string) (default : string) : string :=
  match arg with
  | Some s => s
  | None => default
  end.

(** [after] is [None] when the argument is omitted: it defaults to
    [before].  The deferred callback that restores the selection runs
    before the next event, so its two assignments are applied here. *)
Definition wrapSelection (before : string) (after : option string) (a : App)
  : App :=
  let after := orDefault after before in
  let a1 := saveHistory a in
  let start := selectionStart (textareaRef a) in
  let finish := selectionEnd (textareaRef a) in
  let selected := JS.slice (text a) start finish in
  let newText :=
    JS.slice (text a) 0 start ++ before ++ selected ++ after
      ++ JS.sliceFrom (text a) finish in
  let a2 := setText newText a1 in
  mkApp (text a2) (undoStack a2) (redoStack a2)
    (mkTextarea (start + String.length before)
       (start + String.length before + String.length selected))
    (captures a2).

(** The callback of [lines.map]: [charCount] is the variable the closure
    updates, threaded through the lines in order.  It is advanced by the
    length of [line] after [line] has been reassigned. *)
Fixpoint mapLines (prefix : string) (start finish charCount : nat)
    (lines : list string) : list string :=
  match lines with
  | [] => []
  | line :: rest =>
      let lineStart := charCount in
      let lineEnd := charCount + String.length line in
      let line :=
        if ((start <=? lineEnd) && (lineStart <=? finish))%nat
        then prefix ++ line else line in
      line :: mapLines prefix start finish
                (charCount + (String.length line + 1)) rest
  end.

Definition insertAtLineStart (prefix : string) (a : App) : App :=
  let a1 := saveHistory a in
  let start := selectionStart (textareaRef a) in
  let finish := selectionEnd (textareaRef a) in
  let lines := JS.split JS.newline (text a) in
  let newLines := mapLines prefix start finish 0 lines in
  setText (JS.join JS.nl newLines) a1.

(** ** Keyboard shortcuts *)

Record KeyboardEvent : Type := mkKey {
  ctrlKey : bool;
  metaKey : bool;
  shiftKey : bool;
  key : string
}.

(** The table of the Ctrl+Shift+G shortcut, built by the three loops. *)
Definition buildTable (cols rows : nat) : string :=
  let table := "| " in
  let table :=
    JS.forLoop cols 0
      (fun c t => t ++ ("Header " ++ JS.numberToString (c + 1) ++ " | ")) table in
  let table := table ++ (JS.nl ++ "| ") in
  let table := JS.forLoop cols 0 (fun _ t => t ++ "---- | ") table in
  let table := table ++ JS.nl in
  JS.forLoop rows 0
    (fun _ t =>
       let t := t ++ "| " in
       let t := JS.forLoop cols 0 (fun _ t => t ++ "Data | ") t in
       t ++ JS.nl)
    table.

(** The loop bound of [c < n] from [c = 0]. *)
Definition iterations (n : JS.number) : nat :=
  match n with
  | JS.NaN => 0
  | JS.Num z => Z.to_nat z
  end.

(** [prompt] maps the message of a [prompt(...)] call to what the user
    answers ([None] when the dialog is cancelled). *)
Definition ctrlShortcuts (prompt : string -> option string) (k : string)
    (a : App) : App :=
  if k =? "b" then wrapSelection "**" None a
  else if k =? "i" then wrapSelection "*" None a
  else if k =? "1" then insertAtLineStart "# " a
  else if k =? "2" then insertAtLineStart "## " a
  else if k =? "3" then insertAtLineStart "### " a
  else if k =? "p" then insertAtLineStart "- " a
  else if k =? "q" then insertAtLineStart "> " a
  else if k =? "k" then wrapSelection "`" None a
  else if k =? "l" then
    let url := prompt "Enter URL:" in
    if JS.truthy url
    then wrapSelection "["
           (Some ("](" ++ match url with Some u => u | None => "" end ++ ")")) a
    else a
  else if k =? "z" then handleUndo a
  else if k =? "y" then handleRedo a
  else a.

Definition shiftCtrlShortcuts (prompt : string -> option string) (k : string)
    (a : App) : App :=
  if k =? "c"
  then wrapSelection (JS.nl ++ "```bash" ++ JS.nl) (Some (JS.nl ++ "```" ++ JS.nl)) a
  else if k =? "t" then insertAtLineStart "- [ ] " a
  else if k =? "s" then wrapSelection "~~" None a
  else if k =? "i" then
    let imgUrl := prompt "Enter image URL:" in
    if JS.truthy imgUrl then wrapSelection "![](" (Some ")") a else a
  else if k =? "h" then insertAtLineStart ("---" ++ JS.nl) a
  else if k =? "g" then
    let cols := JS.parseInt (prompt "Columns?") in
    let rows := JS.parseInt (prompt "Rows?") in
    if JS.gt0 cols && JS.gt0 rows
    then wrapSelection (buildTable (iterations cols) (iterations rows)) (Some "") a
    else a
  else a.

Definition handleKeyDown (prompt : string -> option string)
    (e : KeyboardEvent) (a : App) : App :=
  let ctrl := ctrlKey e || metaKey e in
  let k := JS.toLowerCase (key e) in
  let a := if ctrl && negb (shiftKey e) then ctrlShortcuts prompt k a else a in
  if ctrl && shiftKey e then shiftCtrlShortcuts prompt k a else a.

(** The event is the shortcut Ctrl/Cmd+[k] ([withShift = false]) or
    Ctrl/Cmd+Shift+[k] ([withShift = true]), [k] in lower case. *)
Definition shortcut (withShift : bool) (k : string) (e : KeyboardEvent) : Prop :=
  (ctrlKey e || metaKey e) = true
  /\ shiftKey e = withShift
  /\ JS.toLowerCase (key e) = k.

(** ** The line-prefix transform, as specified

    [prefixLines] follows the words of the specification, to compare
    [insertAtLineStart] with: a line is touched when its range
    [lineStart, lineEnd] in the buffer overlaps the selection, and
    [lineStart] advances by the length of the line as it is in the buffer,
    plus one for the newline. *)

Fixpoint prefixTouched (prefix : string) (start finish lineStart : nat)
    (lines : list string) : list string :=
  match lines with
  | [] => []
  | line :: rest =>
      let lineEnd := lineStart + String.length line in
      (if ((start <=? lineEnd) && (lineStart <=? finish))%nat
       then prefix ++ line else line)
        :: prefixTouched prefix start finish (lineEnd + 1) rest
  end.

Definition prefixLines (prefix buffer : string) (start finish : nat) : string :=
  JS.join JS.nl
    (prefixTouched prefix start finish 0 (JS.split JS.newline buffer)).

(** No newline that separates two of [lines] lies in the selection
    [start, finish): [lineStart] is the offset of the first line. *)
Fixpoint noBreakSelected (start finish lineStart : nat) (lines : list string)
  : Prop :=
  match lines with
  | [] => True
  | line :: rest =>
      match rest with
      | [] => True
      | _ :: _ =>
          ~ (start <= lineStart + String.length line < finish)
          /\ noBreakSelected start finish
               (lineStart + String.length line + 1) rest
      end
  end.

(** The room [lines] take in a buffer: each line and the newline that
    ends it (the last line of a buffer has none, so the lines of a buffer
    span its length plus one). *)
Definition span (lines : list string) : nat :=
  fold_right (fun line n => String.length line + 1 + n) 0 lines.

(** A line of the result is the line as it was, or the line prefixed. *)
Definition keptOrPrefixed (prefix line line' : string) : Prop :=
  line' = line \/ line' = prefix ++ line.

(** ** The table, row by row

    The table as the specification lists it, to compare [buildTable] with:
    a header row of "Header N" cells, a divider row of "----" cells and
    one row of "Data" cells per data row, each row ended by a newline. *)

Definition flatten (pieces : list string) : string :=
  fold_right String.append "" pieces.

Definition tableRow (cells : list string) : string :=
  "| " ++ flatten (map (fun cell => cell ++ " | ") cells).

Definition headerCell (n : nat) : string := "Header " ++ JS.numberToString n.

Definition tableRows (cols rows : nat) : list string :=
  tableRow (map headerCell (seq 1 cols))
    :: tableRow (repeat "----" cols)
    :: repeat (tableRow (repeat "Data" cols)) rows.

Definition tableSkeleton (cols rows : nat) : string :=
  flatten (map (fun r => r ++ JS.nl) (tableRows cols rows)).

(** [s] begins with [pat]. *)
Fixpoint startsWith (s pat : string) : bool :=
  match pat with
  | EmptyString => true
  | String p pat' =>
      match s with
      | EmptyString => false
      | String c s' => Ascii.eqb c p && startsWith s' pat'
      end
  end.

(** The number of places of [s] where [pat] starts. *)
Fixpoint occurrences (pat s : string) : nat :=
  (if startsWith s pat then 1 else 0)
  + match s with
    | EmptyString => 0
    | String _ rest => occurrences pat rest
    end.

(** [c] does not occur in [s]. *)
Fixpoint lacks (c : ascii) (s : string) : bool :=
  match s with
  | EmptyString => true
  | String x rest => negb (Ascii.eqb x c) && lacks c rest
  end.

(** A count typed into a prompt that the table shortcut rejects: not a
    number, or a number that is not positive. *)
Definition invalidCount (answer : option string) : Prop :=
  match JS.parseInt answer with
  | JS.NaN => True
  | JS.Num z => (z <= 0)%Z
  end.

(** A decimal digit. *)
Definition isDigit (c : ascii) : bool :=
  let n := nat_of_ascii c in ((48 <=? n) && (n <=? 57))%nat.

Fixpoint allDigits (s : string) : bool :=
  match s with
  | EmptyString => true
  | String c rest => isDigit c && allDigits rest
  end.

(** A numeric answer in the plain sense of the specification: one or more
    decimal digits and nothing else. *)
Definition numeric (s : string) : bool := negb (s =? "") && allDigits s.

(** An answer with its leading white space and one sign taken off. *)
Definition unsignedPart (s : string) : string :=
  match JS.trimStart s with
  | EmptyString => EmptyString
  | String c rest =>
      if (Ascii.eqb c "-" || Ascii.eqb c "+")%bool then rest else String c rest
  end.

(** After white space and a sign the answer goes on with a digit. *)
Definition beginsWithDigit (s : string) : bool :=
  match unsignedPart s with
  | EmptyString => false
  | String c _ => isDigit c
  end.

(** After white space the answer goes on with a minus sign. *)
Definition beginsWithMinus (s : string) : bool :=
  match JS.trimStart s with
  | EmptyString => false
  | String c _ => Ascii.eqb c "-"
  end.

(** [n] is [NaN] or not negative. *)
Definition nonNegative (n : JS.number) : Prop :=
  match n with
  | JS.NaN => True
  | JS.Num z => (0 <= z)%Z
  end.

(** ** Events *)

(** A transform as the shortcuts invoke it. *)
Inductive transform : Type :=
| Wrap (before : string) (after : option string)
| PrefixLines (prefix : string).

Definition applyTransform (tr : transform) (a : App) : App :=
  match tr with
  | Wrap before after => wrapSelection before after a
  | PrefixLines prefix => insertAtLineStart prefix a
  end.

(** The user moves the selection; the component has no handler for it. *)
Definition select (s e : nat) (a : App) : App :=
  mkApp (text a) (undoStack a) (redoStack a) (mkTextarea s e) (captures a).

(** An edit: a transform invoked with the selection at [(editStart, editEnd)]. *)
Record edit : Type := mkEdit {
  editStart : nat;
  editEnd : nat;
  editTransform : transform
}.

Definition applyEdit (ed : edit) (a : App) : App :=
  applyTransform (editTransform ed) (select (editStart ed) (editEnd ed) a).

Definition runEdits (eds : list edit) (a : App) : App :=
  fold_left (fun a ed => applyEdit ed a) eds a.

(** The buffer each edit of [eds] was applied to, oldest first. *)
Fixpoint preimages (eds : list edit) (a : App) : list string :=
  match eds with
  | [] => []
  | ed :: rest => text a :: preimages rest (applyEdit ed a)
  end.

(** What the component reacts to: a key pressed in the textarea (with the
    answers the prompts get), typed input ([onChange] calls [setText] with
    the textarea's new value), and the selection being moved. *)
Inductive event : Type :=
| KeyDown (prompt : string -> option string) (e : KeyboardEvent)
| Change (value : string)
| Select (s e : nat).

Definition step (a : App) (ev : event) : App :=
  match ev with
  | KeyDown prompt e => handleKeyDown prompt e a
  | Change value => setText value a
  | Select s e => select s e a
  end.

Definition run (evs : list event) (a : App) : App := fold_left step evs a.

(** The operations on the history taken one by one, with the buffer
    replaced in between. *)
Inductive historyOp : Type :=
| Capture
| Undo
| Redo
| SetText (value : string).

Definition applyOp (a : App) (op : historyOp) : App :=
  match op with
  | Capture => saveHistory a
  | Undo => handleUndo a
  | Redo => handleRedo a
  | SetText value => setText value a
  end.

(** The snapshots the editor holds: both stacks and the current buffer. *)
Definition snapshots (a : App) : list string :=
  (undoStack a ++ redoStack a ++ [text a])%list.

(** The invariant of the history: the two stacks hold at most 100
    entries together. *)
Definition bounded (a : App) : Prop :=
  List.length (undoStack a) + List.length (redoStack a) <= 100.

(** No entry of [l] occurs twice (decided by comparing the strings). *)
Fixpoint nodupb (l : list string) : bool :=
  match l with
  | [] => true
  | x :: rest => negb (existsb (String.eqb x) rest) && nodupb rest
  end.

(** ** Example states *)

(** A fresh editor holding [t] with the selection [(s, e)]. *)
Definition editor (t : string) (s e : nat) : App :=
  mkApp t [] [] (mkTextarea s e) 0.

Definition helloWorld : App := editor "hello world" 0 5.

(** Ctrl+[k] and Ctrl+Shift+[k]. *)
Definition ctrl (k : string) : KeyboardEvent := mkKey true false false k.
Definition ctrlShift (k : string) : KeyboardEvent := mkKey true false true k.

(** Every prompt is cancelled. *)
Definition cancelled : string -> option string := fun _ => None.

(** Every prompt is answered with [s]. *)
Definition answering (s : string) : string -> option string := fun _ => Some s.

Definition cat : App := editor "cat" 0 3.

(** The three lines "a", "b", "c". *)
Definition abc : string := "a" ++ JS.nl ++ "b" ++ JS.nl ++ "c".

(** The columns prompt is answered with [c] and the rows prompt with [r]. *)
Definition dimensions (c r : string) : string -> option string :=
  fun message => if message =? "Columns?" then Some c else Some r.

(** 150 presses of Ctrl+I with the caret at offset 0: the buffers go
    through "", "**", "****", ... *)
Definition stars : list edit := repeat (mkEdit 0 0 (Wrap "*" None)) 150.

(** * Properties *)

(** ** Strings *)

Section StringFacts.

Lemma append_assoc (a b c : string) : (a ++ b) ++ c = a ++ (b ++ c).
Proof. induction a as [|x a IH]; simpl; [reflexivity | now rewrite IH]. Qed.

Lemma append_empty_r (a : string) : a ++ "" = a.
Proof. induction a as [|x a IH]; simpl; [reflexivity | now rewrite IH]. Qed.

Lemma length_append (a b : string) :
  String.length (a ++ b) = String.length a + String.length b.
Proof. induction a as [|x a IH]; simpl; [reflexivity | now rewrite IH]. Qed.

Lemma substring_0_0 (s : string) : substring 0 0 s = "".
Proof. destruct s; reflexivity. Qed.

Lemma substring_append_prefix (m r : string) :
  substring 0 (String.length m) (m ++ r) = m.
Proof.
  induction m as [|x m IH]; simpl.
  - apply substring_0_0.
  - now rewrite IH.
Qed.

Lemma substring_append_skip (p s : string) (n m : nat) :
  substring (String.length p + n) m (p ++ s) = substring n m s.
Proof. induction p as [|x p IH]; simpl; [reflexivity | exact IH]. Qed.

Lemma length_substring (s : string) :
  forall n m, n + m <= String.length s -> String.length (substring n m s) = m.
Proof.
  induction s as [|x s IH]; intros n m H; simpl in *.
  - destruct n, m; simpl; lia.
  - destruct n as [|n].
    + destruct m as [|m]; simpl; [reflexivity|].
      rewrite IH; lia.
    + apply IH; lia.
Qed.

Lemma length_slice (s : string) (a b : nat) :
  a <= b -> b <= String.length s -> String.length (JS.slice s a b) = b - a.
Proof.
  intros Hab Hb. unfold JS.slice.
  rewrite !Nat.min_l by lia.
  apply length_substring. lia.
Qed.

(** The slice that starts after [p] and spans [m] is [m]. *)
Lemma slice_append_middle (p m r : string) :
  JS.slice (p ++ m ++ r) (String.length p) (String.length p + String.length m)
  = m.
Proof.
  unfold JS.slice. rewrite !length_append.
  rewrite !Nat.min_l by lia.
  replace (String.length p + String.length m - String.length p)
    with (String.length m) by lia.
  rewrite <- (Nat.add_0_r (String.length p)) at 1.
  rewrite substring_append_skip.
  apply substring_append_prefix.
Qed.

End StringFacts.

(** ** The wrap transform *)

(** C1: for a selection [start <= end <= length] of the buffer,
    [wrapSelection before after] makes the buffer
    [buffer[0:start] + before + buffer[start:end] + after + buffer[end:]],
    with the [after] that was given, and with [before] in its place when
    [after] is omitted; it sets the selection to
    [(start + len before, start + len before + (end - start))], and the
    new selection selects in the new buffer exactly the substring that was
    selected. *)
Theorem wrapSelection_spec (a : App) (before : string) (after : option string) :
  selectionStart (textareaRef a) <= selectionEnd (textareaRef a) ->
  selectionEnd (textareaRef a) <= String.length (text a) ->
  text (wrapSelection before after a)
  = JS.slice (text a) 0 (selectionStart (textareaRef a))
      ++ before
      ++ JS.slice (text a) (selectionStart (textareaRef a))
           (selectionEnd (textareaRef a))
      ++ match after with
         | Some given => given
         | None => before
         end
      ++ JS.sliceFrom (text a) (selectionEnd (textareaRef a))
  /\ selectionStart (textareaRef (wrapSelection before after a))
     = selectionStart (textareaRef a) + String.length before
  /\ selectionEnd (textareaRef (wrapSelection before after a))
     = selectionStart (textareaRef a) + String.length before
       + (selectionEnd (textareaRef a) - selectionStart (textareaRef a))
  /\ JS.slice (text (wrapSelection before after a))
       (selectionStart (textareaRef (wrapSelection before after a)))
       (selectionEnd (textareaRef (wrapSelection before after a)))
     = JS.slice (text a) (selectionStart (textareaRef a))
         (selectionEnd (textareaRef a)).
Proof.
  destruct a as [t undo redo [s e] n]; simpl.
  intros Hse He.
  assert (Hsel : String.length (JS.slice t s e) = e - s)
    by (apply length_slice; assumption).
  assert (Hpre : String.length (JS.slice t 0 s) = s)
    by (rewrite length_slice; lia).
  unfold wrapSelection; simpl.
  repeat split.
  - now rewrite Hsel.
  - set (sel := JS.slice t s e) in *.
    set (pre := JS.slice t 0 s) in *.
    rewrite <- (append_assoc pre before).
    replace (s + String.length before) with (String.length (pre ++ before))
      by (rewrite length_append; lia).
    apply slice_append_middle.
Qed.

(** The instances of the specification on "hello world" with the
    selection (0,5): [wrap("**")], where [after] is omitted, and
    [wrap("[", "](u)")], where it is given. *)
Lemma wrapSelection_spec_witness :
  (0 <= 5 /\ 5 <= 11)
  /\ (text (wrapSelection "**" None helloWorld) = "**hello** world"
      /\ selectionStart (textareaRef (wrapSelection "**" None helloWorld)) = 2
      /\ selectionEnd (textareaRef (wrapSelection "**" None helloWorld)) = 7
      /\ JS.slice (text (wrapSelection "**" None helloWorld)) 2 7 = "hello")
  /\ (text (wrapSelection "[" (Some "](u)") helloWorld) = "[hello](u) world"
      /\ selectionStart
           (textareaRef (wrapSelection "[" (Some "](u)") helloWorld)) = 1
      /\ selectionEnd
           (textareaRef (wrapSelection "[" (Some "](u)") helloWorld)) = 6
      /\ JS.slice (text (wrapSelection "[" (Some "](u)") helloWorld)) 1 6
         = "hello").
Proof.
  split; [lia|]. split.
  - apply (wrapSelection_spec helloWorld "**" None); simpl; lia.
  - apply (wrapSelection_spec helloWorld "[" (Some "](u)")); simpl; lia.
Defined.

(** ** The history stacks *)

Section History.

Local Open Scope list_scope.
Local Open Scope nat_scope.

Lemma pop_snoc {A} (l : list A) (x : A) : JS.pop (l ++ [x]) = (Some x, l).
Proof.
  induction l as [|y l IH]; simpl; [reflexivity|].
  rewrite IH. destruct l; reflexivity.
Qed.

Lemma snoc_cases {A} (l : list A) : l = [] \/ exists u x, l = u ++ [x].
Proof.
  destruct l as [|y l]; [now left | right].
  destruct (exists_last (l := y :: l)) as [u [x E]]; [discriminate|].
  now exists u, x.
Qed.

Lemma handleUndo_nil (a : App) : undoStack a = [] -> handleUndo a = a.
Proof. intros E. unfold handleUndo. now rewrite E. Qed.

Lemma handleRedo_nil (a : App) : redoStack a = [] -> handleRedo a = a.
Proof. intros E. unfold handleRedo. now rewrite E. Qed.

Lemma handleUndo_snoc (a : App) (u : list string) (x : string) :
  undoStack a = u ++ [x] ->
  handleUndo a
  = mkApp x u (redoStack a ++ [text a]) (textareaRef a) (captures a).
Proof.
  intros E. unfold handleUndo. rewrite E, pop_snoc, last_length.
  reflexivity.
Qed.

Lemma handleRedo_snoc (a : App) (r : list string) (x : string) :
  redoStack a = r ++ [x] ->
  handleRedo a
  = mkApp x (undoStack a ++ [text a]) r (textareaRef a) (captures a).
Proof.
  intros E. unfold handleRedo. rewrite E, pop_snoc, last_length.
  reflexivity.
Qed.

(** [saveHistory] leaves the buffer it captured on top of the undo stack. *)
Lemma saveHistory_top (a : App) :
  exists u, undoStack (saveHistory a) = u ++ [text a].
Proof.
  unfold saveHistory, JS.push, JS.shift; simpl.
  destruct (100 <? List.length (undoStack a ++ [text a])) eqn:E.
  - destruct (undoStack a) as [|y u] eqn:Eu.
    + simpl in E. discriminate.
    + simpl. now exists u.
  - now exists (undoStack a).
Qed.

(** A transform is [saveHistory] followed by one [setText] (and, for a
    wrap, the selection being set). *)
Lemma applyTransform_shape (tr : transform) (a : App) :
  exists newText ta,
    applyTransform tr a
    = mkApp newText (undoStack (saveHistory a)) [] ta (S (captures a)).
Proof. destruct tr; simpl; eexists; eexists; reflexivity. Qed.

Lemma saveHistory_select (s e : nat) (a : App) :
  undoStack (saveHistory (select s e a)) = undoStack (saveHistory a).
Proof. reflexivity. Qed.

Lemma applyEdit_shape (ed : edit) (a : App) :
  exists newText ta u,
    applyEdit ed a = mkApp newText (u ++ [text a]) [] ta (S (captures a))
    /\ undoStack (saveHistory a) = u ++ [text a].
Proof.
  unfold applyEdit.
  destruct (applyTransform_shape (editTransform ed)
              (select (editStart ed) (editEnd ed) a)) as [t [ta E]].
  destruct (saveHistory_top a) as [u Eu].
  exists t, ta, u. rewrite E, saveHistory_select, Eu. now split.
Qed.

(** Moving the top [x] of one stack to the buffer, and the buffer [t] to
    the top of the other stack, keeps the same entries. *)
Lemma snapshot_moved {A} (u r : list A) (x t : A) :
  Permutation (u ++ (r ++ [t]) ++ [x]) ((u ++ [x]) ++ r ++ [t]).
Proof.
  rewrite <- (app_assoc u [x]).
  apply Permutation_app_head, Permutation_app_comm.
Qed.

End History.

(** C3: from a buffer B0, capturing history and replacing the buffer with
    B1, then undo, gives back B0, and a redo right after gives B1 again
    (and the whole state the edit had produced); so it is for every
    transform the shortcuts apply, with any selection. *)
Theorem undo_redo_roundtrip (a : App) (B1 : string) (ed : edit) :
  (text (handleUndo (setText B1 (saveHistory a))) = text a
   /\ text (handleRedo (handleUndo (setText B1 (saveHistory a)))) = B1
   /\ handleRedo (handleUndo (setText B1 (saveHistory a)))
      = setText B1 (saveHistory a))
  /\ (text (handleUndo (applyEdit ed a)) = text a
      /\ text (handleRedo (handleUndo (applyEdit ed a)))
         = text (applyEdit ed a)
      /\ handleRedo (handleUndo (applyEdit ed a)) = applyEdit ed a).
Proof.
  split.
  - destruct (saveHistory_top a) as [u Eu].
    assert (E : setText B1 (saveHistory a)
                = mkApp B1 (u ++ [text a]) [] (textareaRef a) (S (captures a))).
    { unfold setText. rewrite Eu. reflexivity. }
    rewrite E.
    rewrite (handleUndo_snoc _ u (text a)) by reflexivity. simpl.
    rewrite (handleRedo_snoc _ [] B1) by reflexivity. simpl.
    repeat split.
  - destruct (applyEdit_shape ed a) as [t [ta [u [E _]]]].
    rewrite E.
    rewrite (handleUndo_snoc _ u (text a)) by reflexivity. simpl.
    rewrite (handleRedo_snoc _ [] t) by reflexivity. simpl.
    repeat split.
Qed.

(** ** Dispatch *)

Lemma handleKeyDown_ctrl (prompt : string -> option string)
    (e : KeyboardEvent) (k : string) (a : App) :
  shortcut false k e -> handleKeyDown prompt e a = ctrlShortcuts prompt k a.
Proof.
  intros [Hc [Hs Hk]]. unfold handleKeyDown. now rewrite Hc, Hs, Hk.
Qed.

Lemma handleKeyDown_ctrlShift (prompt : string -> option string)
    (e : KeyboardEvent) (k : string) (a : App) :
  shortcut true k e -> handleKeyDown prompt e a = shiftCtrlShortcuts prompt k a.
Proof.
  intros [Hc [Hs Hk]]. unfold handleKeyDown. now rewrite Hc, Hs, Hk.
Qed.

Lemma ctrlShortcuts_link (prompt : string -> option string) (a : App) :
  ctrlShortcuts prompt "l" a
  = if JS.truthy (prompt "Enter URL:")
    then wrapSelection "["
           (Some ("](" ++ match prompt "Enter URL:" with
                          | Some u => u
                          | None => ""
                          end ++ ")")) a
    else a.
Proof. reflexivity. Qed.

Lemma shiftCtrlShortcuts_image (prompt : string -> option string) (a : App) :
  shiftCtrlShortcuts prompt "i" a
  = if JS.truthy (prompt "Enter image URL:")
    then wrapSelection "![](" (Some ")") a
    else a.
Proof. reflexivity. Qed.

Lemma shiftCtrlShortcuts_table (prompt : string -> option string) (a : App) :
  shiftCtrlShortcuts prompt "g" a
  = if JS.gt0 (JS.parseInt (prompt "Columns?"))
       && JS.gt0 (JS.parseInt (prompt "Rows?"))
    then wrapSelection
           (buildTable (iterations (JS.parseInt (prompt "Columns?")))
              (iterations (JS.parseInt (prompt "Rows?"))))
           (Some "") a
    else a.
Proof. reflexivity. Qed.

(** C5: [saveHistory] empties the redo stack, so every edit leaves it
    empty; after edit, undo (which fills the redo stack), a second edit,
    the redo changes nothing. *)
Theorem edit_clears_redo (a : App) (ed1 ed2 : edit) :
  redoStack (saveHistory a) = []
  /\ redoStack (applyEdit ed1 a) = []
  /\ redoStack (handleUndo (applyEdit ed1 a)) = [text (applyEdit ed1 a)]
  /\ redoStack (applyEdit ed2 (handleUndo (applyEdit ed1 a))) = []
  /\ handleRedo (applyEdit ed2 (handleUndo (applyEdit ed1 a)))
     = applyEdit ed2 (handleUndo (applyEdit ed1 a)).
Proof.
  assert (Hclear : forall ed b, redoStack (applyEdit ed b) = []).
  { intros ed b. destruct (applyEdit_shape ed b) as [t [ta [u [E _]]]].
    now rewrite E. }
  repeat split.
  - apply Hclear.
  - destruct (applyEdit_shape ed1 a) as [t [ta [u [E _]]]].
    rewrite E. now rewrite (handleUndo_snoc _ u (text a)).
  - apply Hclear.
  - apply handleRedo_nil, Hclear.
Qed.

(** C7: undo with an empty undo stack, and redo with an empty redo stack,
    change nothing: the handlers, and the Ctrl+Z and Ctrl+Y shortcuts that
    call them, return the state they were given. *)
Theorem undo_redo_empty_noop (prompt : string -> option string)
    (e : KeyboardEvent) (a : App) :
  (undoStack a = [] ->
   handleUndo a = a
   /\ (shortcut false "z" e -> handleKeyDown prompt e a = a))
  /\ (redoStack a = [] ->
      handleRedo a = a
      /\ (shortcut false "y" e -> handleKeyDown prompt e a = a)).
Proof.
  split; intros E; split.
  - now apply handleUndo_nil.
  - intros H. rewrite (handleKeyDown_ctrl _ _ _ _ H). simpl.
    now apply handleUndo_nil.
  - now apply handleRedo_nil.
  - intros H. rewrite (handleKeyDown_ctrl _ _ _ _ H). simpl.
    now apply handleRedo_nil.
Qed.

(** Undo and redo on a fresh editor. *)
Lemma undo_redo_empty_noop_witness :
  (undoStack helloWorld = [] /\ redoStack helloWorld = [])
  /\ handleUndo helloWorld = helloWorld
  /\ handleKeyDown cancelled (ctrl "Z") helloWorld = helloWorld
  /\ handleRedo helloWorld = helloWorld
  /\ handleKeyDown cancelled (ctrl "Y") helloWorld = helloWorld.
Proof.
  split; [split; reflexivity|].
  pose proof (proj1 (undo_redo_empty_noop cancelled (ctrl "Z") helloWorld)
                eq_refl) as [Hu Hz].
  pose proof (proj2 (undo_redo_empty_noop cancelled (ctrl "Y") helloWorld)
                eq_refl) as [Hr Hy].
  split; [exact Hu|].
  split; [apply Hz; repeat split|].
  split; [exact Hr|].
  apply Hy; repeat split.
Defined.

(** C10: with a non-empty undo stack, undo pops its top entry into the
    buffer and pushes the buffer it replaces on the redo stack; redo is
    the mirror image; so the snapshots held (both stacks and the buffer)
    are the same multiset before and after an undo or a redo. *)
Theorem undo_redo_move_one_snapshot (a : App) :
  (forall u x, undoStack a = (u ++ [x])%list ->
     handleUndo a
     = mkApp x u (redoStack a ++ [text a])%list (textareaRef a) (captures a))
  /\ (forall r x, redoStack a = (r ++ [x])%list ->
     handleRedo a
     = mkApp x (undoStack a ++ [text a])%list r (textareaRef a) (captures a))
  /\ Permutation (snapshots (handleUndo a)) (snapshots a)
  /\ Permutation (snapshots (handleRedo a)) (snapshots a).
Proof.
  split; [|split; [|split]].
  - intros u x E. now apply handleUndo_snoc.
  - intros r x E. now apply handleRedo_snoc.
  - destruct (snoc_cases (undoStack a)) as [E | [u [x E]]].
    + now rewrite handleUndo_nil.
    + rewrite (handleUndo_snoc a u x E). unfold snapshots; simpl.
      rewrite E. apply snapshot_moved.
  - destruct (snoc_cases (redoStack a)) as [E | [r [x E]]].
    + now rewrite handleRedo_nil.
    + rewrite (handleRedo_snoc a r x E). unfold snapshots; simpl.
      rewrite E. apply Permutation_sym, snapshot_moved.
Qed.

(** An editor with one entry on each stack. *)
Lemma undo_redo_move_one_snapshot_witness :
  handleUndo (mkApp "b" ["a"] ["c"] (mkTextarea 0 0) 0)
  = mkApp "a" [] ["c"; "b"] (mkTextarea 0 0) 0
  /\ handleRedo (mkApp "b" ["a"] ["c"] (mkTextarea 0 0) 0)
     = mkApp "c" ["a"; "b"] [] (mkTextarea 0 0) 0.
Proof.
  split.
  - apply (proj1 (undo_redo_move_one_snapshot
                    (mkApp "b" ["a"] ["c"] (mkTextarea 0 0) 0)) [] "a").
    reflexivity.
  - apply (proj1 (proj2 (undo_redo_move_one_snapshot
                    (mkApp "b" ["a"] ["c"] (mkTextarea 0 0) 0))) [] "c").
    reflexivity.
Defined.

(** ** Prompts *)

Lemma truthy_false (answer : option string) :
  answer = None \/ answer = Some "" -> JS.truthy answer = false.
Proof. intros [-> | ->]; reflexivity. Qed.

Lemma invalidCount_gt0 (answer : option string) :
  invalidCount answer -> JS.gt0 (JS.parseInt answer) = false.
Proof.
  unfold invalidCount. destruct (JS.parseInt answer) as [|z]; simpl.
  - reflexivity.
  - intros H. apply Z.ltb_ge. exact H.
Qed.

Section Counts.

Lemma digitValue_nonneg (c : ascii) (d : Z) :
  JS.digitValue c = Some d -> (0 <= d)%Z.
Proof.
  unfold JS.digitValue.
  repeat match goal with
         | |- context [if ?b then _ else _] => destruct b
         end; intros H; try discriminate H; injection H as <-; lia.
Qed.

Lemma parseDigits_nonNegative (R : Z) (s : string) :
  (0 <= R)%Z ->
  forall acc, nonNegative acc -> nonNegative (JS.parseDigits R s acc).
Proof.
  intros HR. induction s as [|c s IH]; intros acc H; cbn [JS.parseDigits].
  - exact H.
  - destruct (JS.digitValue c) as [d|] eqn:E; [|exact H].
    destruct (d <? R)%Z; [|exact H].
    apply IH. apply digitValue_nonneg in E.
    destruct acc as [|z]; simpl in *; [lia | nia].
Qed.

(** What [parseInt] reads after the sign is never negative. *)
Lemma parseRadix_nonNegative (s1 : string) :
  nonNegative
    (match s1 with
     | String "0" (String "x" rest) => JS.parseDigits 16 rest JS.NaN
     | String "0" (String "X" rest) => JS.parseDigits 16 rest JS.NaN
     | _ => JS.parseDigits 10 s1 JS.NaN
     end).
Proof.
  assert (D : forall s, nonNegative (JS.parseDigits 10 s JS.NaN))
    by (intros s; apply parseDigits_nonNegative; [lia | exact I]).
  assert (X : forall s, nonNegative (JS.parseDigits 16 s JS.NaN))
    by (intros s; apply parseDigits_nonNegative; [lia | exact I]).
  destruct s1 as [|c s1]; [exact I|].
  destruct c as [[] [] [] [] [] [] [] []]; try apply D.
  destruct s1 as [|c s1]; [apply D|].
  destruct c as [[] [] [] [] [] [] [] []]; try apply D; apply X.
Qed.

(** An answer that does not go on with a digit holds no number. *)
Lemma parseInt_no_digit (s : string) :
  beginsWithDigit s = false -> JS.parseInt (Some s) = JS.NaN.
Proof.
  unfold beginsWithDigit, unsignedPart, JS.parseInt.
  destruct (JS.trimStart s) as [|c r]; [reflexivity|].
  destruct c as [[] [] [] [] [] [] [] []]; cbn [Ascii.eqb Bool.eqb orb andb];
    intros H; try discriminate H; try reflexivity;
    destruct r as [|c r]; try reflexivity;
    destruct c as [[] [] [] [] [] [] [] []];
    try discriminate H; reflexivity.
Qed.

(** An answer that goes on with a minus sign holds no positive number. *)
Lemma parseInt_minus (s : string) :
  beginsWithMinus s = true -> invalidCount (Some s).
Proof.
  unfold beginsWithMinus, invalidCount, JS.parseInt.
  destruct (JS.trimStart s) as [|c r]; [discriminate|].
  intros H. apply Ascii.eqb_eq in H. subst c.
  cbv beta iota zeta.
  assert (N := parseRadix_nonNegative r).
  match goal with
  | |- context [JS.negate ?n] => change (nonNegative n) in N; destruct n as [|z]
  end; simpl in *; [exact I | lia].
Qed.

End Counts.

(** C6, as the code has it: when the URL prompt of the link or image
    shortcut is cancelled or left empty, or [parseInt] reads a count given
    to the table shortcut as NaN or as a number that is not positive, the
    key press leaves the whole state as it was: buffer, undo stack, redo
    stack, selection, and the number of history captures made (so
    [saveHistory] was not called).  [parseInt] reads such a count when the
    prompt is cancelled, when the answer does not go on, after white space
    and a sign, with a digit, and when it goes on with a minus sign. *)
Theorem rejected_prompt_no_effect (prompt : string -> option string)
    (e : KeyboardEvent) (a : App) :
  (shortcut false "l" e ->
   prompt "Enter URL:" = None \/ prompt "Enter URL:" = Some "" ->
   handleKeyDown prompt e a = a)
  /\ (shortcut true "i" e ->
      prompt "Enter image URL:" = None \/ prompt "Enter image URL:" = Some "" ->
      handleKeyDown prompt e a = a)
  /\ (shortcut true "g" e ->
      invalidCount (prompt "Columns?") \/ invalidCount (prompt "Rows?") ->
      handleKeyDown prompt e a = a)
  /\ invalidCount None
  /\ (forall s, beginsWithDigit s = false -> invalidCount (Some s))
  /\ (forall s, beginsWithMinus s = true -> invalidCount (Some s)).
Proof.
  split; [|split; [|split; [|split; [|split]]]].
  - intros H Hp.
    rewrite (handleKeyDown_ctrl _ _ _ _ H), ctrlShortcuts_link.
    now rewrite (truthy_false _ Hp).
  - intros H Hp.
    rewrite (handleKeyDown_ctrlShift _ _ _ _ H), shiftCtrlShortcuts_image.
    now rewrite (truthy_false _ Hp).
  - intros H Hp.
    rewrite (handleKeyDown_ctrlShift _ _ _ _ H), shiftCtrlShortcuts_table.
    destruct Hp as [Hp | Hp]; rewrite (invalidCount_gt0 _ Hp).
    + reflexivity.
    + now rewrite andb_false_r.
  - exact I.
  - intros s H. unfold invalidCount. now rewrite (parseInt_no_digit s H).
  - apply parseInt_minus.
Qed.

(** The three shortcuts on "hello world", every prompt cancelled; and the
    table shortcut with the counts "0", "abc" and " -3". *)
Lemma rejected_prompt_no_effect_witness :
  handleKeyDown cancelled (ctrl "L") helloWorld = helloWorld
  /\ handleKeyDown cancelled (ctrlShift "I") helloWorld = helloWorld
  /\ handleKeyDown cancelled (ctrlShift "G") helloWorld = helloWorld
  /\ handleKeyDown (answering "0") (ctrlShift "g") helloWorld = helloWorld
  /\ handleKeyDown (answering "abc") (ctrlShift "g") helloWorld = helloWorld
  /\ handleKeyDown (answering " -3") (ctrlShift "g") helloWorld = helloWorld.
Proof.
  split; [|split; [|split; [|split; [|split]]]].
  - apply (proj1 (rejected_prompt_no_effect cancelled (ctrl "L") helloWorld));
      [repeat split | now left].
  - apply (proj1 (proj2 (rejected_prompt_no_effect cancelled (ctrlShift "I")
                           helloWorld))); [repeat split | now left].
  - destruct (rejected_prompt_no_effect cancelled (ctrlShift "G") helloWorld)
      as (_ & _ & T & N & _).
    apply T; [repeat split | left; exact N].
  - destruct (rejected_prompt_no_effect (answering "0") (ctrlShift "g")
                helloWorld) as (_ & _ & T & _).
    apply T; [repeat split | left; vm_compute; discriminate].
  - destruct (rejected_prompt_no_effect (answering "abc") (ctrlShift "g")
                helloWorld) as (_ & _ & T & _ & D & _).
    apply T; [repeat split | left; apply D; reflexivity].
  - destruct (rejected_prompt_no_effect (answering " -3") (ctrlShift "g")
                helloWorld) as (_ & _ & T & _ & _ & M).
    apply T; [repeat split | left; apply M; reflexivity].
Defined.

(** C6, as it was stated, fails: "2abc" and "1x" are not numbers, yet the
    table shortcut answered with them captures the history and inserts
    the table of 2 columns and 1 row. *)
Lemma lenient_count_inserts_table :
  numeric "2abc" = false
  /\ numeric "1x" = false
  /\ handleKeyDown (dimensions "2abc" "1x") (ctrlShift "g") helloWorld
     <> helloWorld
  /\ captures (handleKeyDown (dimensions "2abc" "1x") (ctrlShift "g") helloWorld)
     = 1
  /\ undoStack
       (handleKeyDown (dimensions "2abc" "1x") (ctrlShift "g") helloWorld)
     = ["hello world"]
  /\ text (handleKeyDown (dimensions "2abc" "1x") (ctrlShift "g") helloWorld)
     = buildTable 2 1 ++ "hello world".
Proof.
  split; [reflexivity|]. split; [reflexivity|]. split.
  - intros H. apply (f_equal captures) in H. vm_compute in H. discriminate H.
  - repeat split.
Qed.

(** C8 (what the code does): with a non-empty answer to the image-URL
    prompt, Ctrl+Shift+I is [wrapSelection "![](" ")"], whatever the
    answer; on "cat" with the selection (0,3) the buffer becomes "![](cat)"
    for every URL, so the URL is nowhere in it. *)
Theorem image_shortcut_drops_url :
  (forall prompt e a,
     shortcut true "i" e ->
     JS.truthy (prompt "Enter image URL:") = true ->
     handleKeyDown prompt e a = wrapSelection "![](" (Some ")") a)
  /\ (forall (c : ascii) (url : string),
       text (handleKeyDown (answering (String c url)) (ctrlShift "I") cat)
       = "![](cat)").
Proof.
  split.
  - intros prompt e a H Hp.
    rewrite (handleKeyDown_ctrlShift _ _ _ _ H), shiftCtrlShortcuts_image.
    now rewrite Hp.
  - intros c url. reflexivity.
Qed.

(** ** The table *)

Section Table.

Lemma forLoop_ext {S} (body body' : nat -> S -> S) :
  (forall c s, body c s = body' c s) ->
  forall n c s, JS.forLoop n c body s = JS.forLoop n c body' s.
Proof.
  intros H n. induction n as [|n IH]; intros c s; simpl.
  - reflexivity.
  - now rewrite H, IH.
Qed.

(** A loop that appends [f c] to the string at each turn. *)
Lemma forLoop_append (f : nat -> string) :
  forall n c t,
    JS.forLoop n c (fun c t => t ++ f c) t = t ++ flatten (map f (seq c n)).
Proof.
  induction n as [|n IH]; intros c t; simpl.
  - now rewrite append_empty_r.
  - rewrite IH, append_assoc, Nat.add_1_r. reflexivity.
Qed.

Lemma map_const_seq {A} (x : A) :
  forall n c, map (fun _ => x) (seq c n) = repeat x n.
Proof. induction n as [|n IH]; intros c; simpl; [|rewrite IH]; reflexivity. Qed.

Lemma flatten_app (l l' : list string) :
  flatten (l ++ l')%list = flatten l ++ flatten l'.
Proof.
  induction l as [|x l IH]; simpl; [reflexivity|].
  now rewrite IH, append_assoc.
Qed.

Lemma buildTable_rows (cols rows : nat) :
  buildTable cols rows = tableSkeleton cols rows.
Proof.
  unfold buildTable, tableSkeleton, tableRows.
  rewrite (forLoop_ext _
             (fun _ t => t ++ (tableRow (repeat "Data" cols) ++ JS.nl))).
  2:{ intros c t.
      rewrite (forLoop_append (fun _ => "Data | ")), map_const_seq.
      unfold tableRow. rewrite map_repeat, !append_assoc. reflexivity. }
  rewrite (forLoop_append (fun _ => tableRow (repeat "Data" cols) ++ JS.nl)).
  rewrite map_const_seq.
  rewrite (forLoop_append (fun _ => "---- | ")), map_const_seq.
  rewrite (forLoop_append (fun c => headerCell (c + 1) ++ " | ")).
  cbn [map flatten fold_right].
  unfold tableRow.
  rewrite !map_repeat.
  replace (map (fun c => headerCell (c + 1) ++ " | ") (seq 0 cols))
    with (map (fun cell => cell ++ " | ") (map headerCell (seq 1 cols))).
  2:{ rewrite <- seq_shift, !map_map. apply map_ext.
      intros c. now rewrite Nat.add_1_r. }
  rewrite !append_assoc. reflexivity.
Qed.

Lemma lacks_append (c : ascii) (s r : string) :
  lacks c (s ++ r) = lacks c s && lacks c r.
Proof.
  induction s as [|x s IH]; simpl; [reflexivity|].
  now rewrite IH, andb_assoc.
Qed.

Lemma lacks_uint (d : Decimal.uint) :
  lacks "D" (NilEmpty.string_of_uint d) = true.
Proof. induction d; simpl; auto. Qed.

Lemma lacks_headerCell (n : nat) : lacks "D" (headerCell n ++ " | ") = true.
Proof.
  unfold headerCell, JS.numberToString.
  rewrite !lacks_append, lacks_uint. reflexivity.
Qed.

Lemma lacks_flatten (c : ascii) (l : list string) :
  Forall (fun s => lacks c s = true) l -> lacks c (flatten l) = true.
Proof.
  induction 1 as [|s l Hs _ IH]; simpl; [reflexivity|].
  now rewrite lacks_append, Hs, IH.
Qed.

(** A stretch without "D" holds no start of "Data". *)
Lemma occurrences_lacks (s r : string) :
  lacks "D" s = true ->
  occurrences "Data" (s ++ r) = occurrences "Data" r.
Proof.
  induction s as [|x s IH]; [reflexivity|].
  cbn [lacks]. intros H. apply andb_prop in H as [Hx Hs].
  apply negb_true_iff in Hx.
  change (String x s ++ r) with (String x (s ++ r)).
  cbn [occurrences startsWith]. rewrite Hx, (IH Hs). reflexivity.
Qed.

Lemma occurrences_cons (pat : string) (c : ascii) (s : string) :
  occurrences pat (String c s)
  = (if startsWith (String c s) pat then 1 else 0) + occurrences pat s.
Proof. reflexivity. Qed.

Lemma flatten_cons (x : string) (l : list string) :
  flatten (x :: l) = x ++ flatten l.
Proof. reflexivity. Qed.

Lemma occurrences_cell (r : string) :
  occurrences "Data" ("Data | " ++ r) = S (occurrences "Data" r).
Proof.
  change ("Data | " ++ r) with (String "D" ("ata | " ++ r)).
  rewrite occurrences_cons.
  rewrite (occurrences_lacks "ata | ") by reflexivity.
  reflexivity.
Qed.

Lemma occurrences_cells (r : string) :
  forall cols,
    occurrences "Data" (flatten (repeat "Data | " cols) ++ r)
    = cols + occurrences "Data" r.
Proof.
  induction cols as [|cols IH]; [reflexivity|].
  change (repeat "Data | " (S cols))
    with ("Data | " :: repeat "Data | " cols).
  rewrite flatten_cons, append_assoc, occurrences_cell, IH.
  reflexivity.
Qed.

Lemma occurrences_dataRows (cols : nat) :
  forall rows,
    occurrences "Data"
      (flatten (map (fun r => r ++ JS.nl)
                  (repeat (tableRow (repeat "Data" cols)) rows)))
    = rows * cols.
Proof.
  induction rows as [|rows IH]; [reflexivity|].
  change (repeat (tableRow (repeat "Data" cols)) (S rows))
    with (tableRow (repeat "Data" cols)
            :: repeat (tableRow (repeat "Data" cols)) rows).
  rewrite map_cons, flatten_cons.
  unfold tableRow at 1. rewrite map_repeat, !append_assoc.
  rewrite (occurrences_lacks "| ") by reflexivity.
  rewrite occurrences_cells.
  rewrite (occurrences_lacks JS.nl) by reflexivity.
  rewrite IH. reflexivity.
Qed.

Lemma occurrences_table (cols rows : nat) :
  occurrences "Data" (buildTable cols rows) = rows * cols.
Proof.
  rewrite buildTable_rows. unfold tableSkeleton, tableRows.
  rewrite !map_cons, !flatten_cons.
  rewrite occurrences_lacks.
  2:{ unfold tableRow. rewrite !lacks_append.
      rewrite lacks_flatten; [reflexivity|].
      apply Forall_forall. intros s Hs.
      apply in_map_iff in Hs as [cell [<- Hc]].
      apply in_map_iff in Hc as [n [<- _]].
      apply lacks_headerCell. }
  rewrite occurrences_lacks.
  2:{ unfold tableRow. rewrite !lacks_append.
      rewrite lacks_flatten; [reflexivity|].
      apply Forall_forall. intros s Hs.
      apply in_map_iff in Hs as [cell [<- Hc]].
      apply repeat_spec in Hc. now subst cell. }
  apply occurrences_dataRows.
Qed.

End Table.

(** C9: with the answers 2 and 1 the table shortcut inserts, by
    [wrapSelection table ""], the header row "| Header 1 | Header 2 | ",
    the divider row "| ---- | ---- | " and one data row "| Data | Data | ",
    each followed by a newline; for any counts the table is the header
    row, the divider row and [rows] data rows of [cols] "Data" cells each,
    so "Data" occurs [rows * cols] times. *)
Theorem table_shortcut_skeleton :
  buildTable 2 1
  = "| Header 1 | Header 2 | " ++ JS.nl
      ++ "| ---- | ---- | " ++ JS.nl
      ++ "| Data | Data | " ++ JS.nl
  /\ (forall prompt e a c r,
       shortcut true "g" e ->
       JS.parseInt (prompt "Columns?") = JS.Num c ->
       JS.parseInt (prompt "Rows?") = JS.Num r ->
       (0 < c)%Z -> (0 < r)%Z ->
       handleKeyDown prompt e a
       = wrapSelection (buildTable (Z.to_nat c) (Z.to_nat r)) (Some "") a)
  /\ (forall cols rows,
       buildTable cols rows = tableSkeleton cols rows
       /\ occurrences "Data" (buildTable cols rows) = rows * cols).
Proof.
  split; [reflexivity | split].
  - intros prompt e a c r H Hc Hr Hc0 Hr0.
    rewrite (handleKeyDown_ctrlShift _ _ _ _ H), shiftCtrlShortcuts_table.
    rewrite Hc, Hr. simpl.
    apply Z.ltb_lt in Hc0, Hr0. now rewrite Hc0, Hr0.
  - intros cols rows. split.
    + apply buildTable_rows.
    + apply occurrences_table.
Qed.

(** Ctrl+Shift+G on "hello world" (selection (0,5)), answering 2 and 1. *)
Lemma table_shortcut_skeleton_witness :
  text (handleKeyDown (dimensions "2" "1") (ctrlShift "G") helloWorld)
  = "| Header 1 | Header 2 | " ++ JS.nl
      ++ "| ---- | ---- | " ++ JS.nl
      ++ "| Data | Data | " ++ JS.nl
      ++ "hello world".
Proof.
  rewrite (proj1 (proj2 table_shortcut_skeleton)
             (dimensions "2" "1") (ctrlShift "G") helloWorld 2%Z 1%Z);
    [reflexivity | repeat split | reflexivity | reflexivity | lia | lia].
Defined.

(** ** The line-prefix transform *)

Section LinePrefix.

Variable prefix : string.
Variables start finish : nat.

Local Open Scope nat_scope.

(** Lines that begin after the selection are left as they are, by the
    code and by the specification. *)
Lemma mapLines_after (lines : list string) :
  forall charCount, finish < charCount ->
    mapLines prefix start finish charCount lines = lines.
Proof.
  induction lines as [|line rest IH]; intros c H; simpl; [reflexivity|].
  replace (c <=? finish) with false by (symmetry; apply Nat.leb_gt; lia).
  rewrite andb_false_r, IH by lia. reflexivity.
Qed.

Lemma prefixTouched_after (lines : list string) :
  forall lineStart, finish < lineStart ->
    prefixTouched prefix start finish lineStart lines = lines.
Proof.
  induction lines as [|line rest IH]; intros c H; simpl; [reflexivity|].
  replace (c <=? finish) with false by (symmetry; apply Nat.leb_gt; lia).
  rewrite andb_false_r, IH by lia. reflexivity.
Qed.

(** When the selection holds no newline between two lines, the code
    prefixes the lines the specification names. *)
Lemma mapLines_prefixTouched (lines : list string) :
  forall c, noBreakSelected start finish c lines ->
    mapLines prefix start finish c lines
    = prefixTouched prefix start finish c lines.
Proof.
  induction lines as [|line rest IH]; intros c H; [reflexivity|].
  cbn [mapLines prefixTouched].
  destruct rest as [|next rest]; [reflexivity|].
  destruct H as [Hsel Hrest].
  destruct ((start <=? c + String.length line) && (c <=? finish)) eqn:E.
  - apply andb_prop in E as [E1 E2].
    apply Nat.leb_le in E1, E2.
    rewrite mapLines_after by (rewrite length_append; lia).
    rewrite prefixTouched_after by lia. reflexivity.
  - replace (c + (String.length line + 1))
      with (c + String.length line + 1) by lia.
    now rewrite IH.
Qed.

Lemma noBreakSelected_shift (lines : list string) (c c' : nat) :
  c = c' -> noBreakSelected start finish c lines ->
  noBreakSelected start finish c' lines.
Proof. now intros ->. Qed.

(** The lines of a buffer whose selected offsets hold no newline. *)
Lemma split_noBreakSelected (t : string) :
  forall c,
    (forall p, start <= c + p < finish -> get p t <> Some JS.newline) ->
    noBreakSelected start finish c (JS.split JS.newline t).
Proof.
  induction t as [|x t IH]; intros c H; [exact I|].
  cbn [JS.split].
  destruct (Ascii.eqb x JS.newline) eqn:Ex.
  - apply Ascii.eqb_eq in Ex. subst x.
    assert (IH' := IH (c + 0 + 1)).
    destruct (JS.split JS.newline t) as [|piece pieces] eqn:Es;
      [exact I|].
    split.
    + intros Hc. simpl in Hc. apply (H 0); [lia | reflexivity].
    + apply IH'. intros p Hp. apply (H (S p)). lia.
  - assert (IH' := IH (c + 1)).
    destruct (JS.split JS.newline t) as [|piece pieces] eqn:Es;
      [exact I|].
    destruct pieces as [|piece' pieces]; [exact I|].
    destruct IH' as [Hsel Hrest].
    { intros p Hp. apply (H (S p)). lia. }
    split.
    + simpl String.length. lia.
    + apply (noBreakSelected_shift _ (c + 1 + String.length piece + 1));
        [simpl String.length; lia | exact Hrest].
Qed.

Lemma lacks_substring (x : ascii) (t : string) :
  forall n m p,
    lacks x (substring n m t) = true ->
    n <= p < n + m -> get p t <> Some x.
Proof.
  induction t as [|y t IH]; intros n m p H Hp; [destruct p; discriminate|].
  destruct n as [|n].
  - destruct m as [|m]; [lia|].
    simpl in H. apply andb_prop in H as [Hy Hrest].
    destruct p as [|p]; simpl.
    + intros E. injection E as ->.
      rewrite Ascii.eqb_refl in Hy. discriminate.
    + apply (IH 0 m p Hrest). lia.
  - destruct p as [|p]; [lia|]. simpl.
    apply (IH n m p H). lia.
Qed.

End LinePrefix.

(** C2 (what the code does): on "a\nb\nc" with the caret in line "b"
    (selection (2,2)) only that line is prefixed, as specified; with the
    selection (0,3), which overlaps the ranges [0,1] of "a" and [2,3] of
    "b", the code prefixes "a" alone, where the transform as specified
    prefixes both: after a line is prefixed, [mapLines] counts the prefix
    into the offsets of the lines that follow. *)
Theorem insertAtLineStart_misses_lines :
  text (insertAtLineStart "- " (editor abc 2 2))
  = "a" ++ JS.nl ++ "- b" ++ JS.nl ++ "c"
  /\ text (insertAtLineStart "- " (editor abc 0 3))
     = "- a" ++ JS.nl ++ "b" ++ JS.nl ++ "c"
  /\ prefixLines "- " abc 0 3 = "- a" ++ JS.nl ++ "- b" ++ JS.nl ++ "c"
  /\ mapLines "- " 0 3 0 ["a"; "b"; "c"] = ["- a"; "b"; "c"]
  /\ prefixTouched "- " 0 3 0 ["a"; "b"; "c"] = ["- a"; "- b"; "c"].
Proof. repeat split. Qed.

(** When the selected text holds no newline (the selection lies within
    one line), [insertAtLineStart] yields the buffer that [prefixLines]
    specifies: the line the selection touches is prefixed and the others
    are unchanged. *)
Theorem insertAtLineStart_one_line (prefix : string) (a : App) :
  selectionStart (textareaRef a) <= selectionEnd (textareaRef a) ->
  selectionEnd (textareaRef a) <= String.length (text a) ->
  lacks JS.newline
    (JS.slice (text a) (selectionStart (textareaRef a))
       (selectionEnd (textareaRef a))) = true ->
  text (insertAtLineStart prefix a)
  = prefixLines prefix (text a) (selectionStart (textareaRef a))
      (selectionEnd (textareaRef a)).
Proof.
  destruct a as [t undo redo [s e] n]; simpl.
  intros Hse He Hl.
  unfold prefixLines. f_equal.
  apply mapLines_prefixTouched, split_noBreakSelected.
  intros p Hp.
  unfold JS.slice in Hl. rewrite !Nat.min_l in Hl by lia.
  apply (lacks_substring _ _ s (e - s) p Hl). lia.
Qed.

(** The caret in line "b" of the three lines "a", "b", "c". *)
Lemma insertAtLineStart_one_line_witness :
  text (insertAtLineStart "- " (editor abc 2 2))
  = prefixLines "- " abc 2 2.
Proof.
  apply (insertAtLineStart_one_line "- " (editor abc 2 2));
    [simpl; lia | simpl; lia | reflexivity].
Defined.

(** ** The bound on the undo stack *)

Section Bound.

Local Open Scope list_scope.
Local Open Scope nat_scope.

Lemma saveHistory_evicts (a : App) :
  List.length (undoStack a) = 100 ->
  undoStack (saveHistory a) = tl (undoStack a) ++ [text a].
Proof.
  intros H. unfold saveHistory, JS.push, JS.shift; simpl.
  rewrite last_length, H. simpl.
  destruct (undoStack a); [discriminate H | reflexivity].
Qed.

Lemma saveHistory_keeps (a : App) :
  List.length (undoStack a) < 100 ->
  undoStack (saveHistory a) = undoStack a ++ [text a].
Proof.
  intros H. unfold saveHistory, JS.push, JS.shift; simpl.
  rewrite last_length.
  destruct (100 <? S (List.length (undoStack a))) eqn:E; [|reflexivity].
  apply Nat.ltb_lt in E. lia.
Qed.

Lemma saveHistory_undoStack (a : App) :
  List.length (undoStack a) <= 100 ->
  undoStack (saveHistory a)
  = skipn (List.length (undoStack a) + 1 - 100) (undoStack a ++ [text a]).
Proof.
  intros H. apply Nat.lt_eq_cases in H as [H | H].
  - rewrite saveHistory_keeps by exact H.
    replace (List.length (undoStack a) + 1 - 100) with 0 by lia.
    reflexivity.
  - rewrite saveHistory_evicts by exact H. rewrite H. simpl.
    destruct (undoStack a); [discriminate H | reflexivity].
Qed.

Lemma applyTransform_undoStack (tr : transform) (a : App) :
  undoStack (applyTransform tr a) = undoStack (saveHistory a)
  /\ redoStack (applyTransform tr a) = [].
Proof. destruct tr; split; reflexivity. Qed.

Lemma applyTransform_bounded (tr : transform) (a : App) :
  bounded a -> bounded (applyTransform tr a).
Proof.
  unfold bounded. intros H.
  destruct (applyTransform_undoStack tr a) as [-> ->].
  rewrite saveHistory_undoStack by lia.
  rewrite length_skipn, last_length. cbn [List.length]. lia.
Qed.

Lemma handleUndo_bounded (a : App) : bounded a -> bounded (handleUndo a).
Proof.
  unfold bounded. intros H.
  destruct (snoc_cases (undoStack a)) as [E | [u [x E]]].
  - now rewrite handleUndo_nil.
  - rewrite (handleUndo_snoc a u x E). simpl.
    rewrite E in H. rewrite !last_length in *. lia.
Qed.

Lemma handleRedo_bounded (a : App) : bounded a -> bounded (handleRedo a).
Proof.
  unfold bounded. intros H.
  destruct (snoc_cases (redoStack a)) as [E | [r [x E]]].
  - now rewrite handleRedo_nil.
  - rewrite (handleRedo_snoc a r x E). simpl.
    rewrite E in H. rewrite !last_length in *. lia.
Qed.

(** Whatever the key, the handler does nothing, undoes, redoes, or
    applies one transform. *)
Lemma handleKeyDown_cases (prompt : string -> option string)
    (e : KeyboardEvent) (a : App) :
  handleKeyDown prompt e a = a
  \/ handleKeyDown prompt e a = handleUndo a
  \/ handleKeyDown prompt e a = handleRedo a
  \/ exists tr, handleKeyDown prompt e a = applyTransform tr a.
Proof.
  assert (W : forall b af, exists tr,
              wrapSelection b af a = applyTransform tr a)
    by (intros b af; now exists (Wrap b af)).
  assert (P : forall p, exists tr,
              insertAtLineStart p a = applyTransform tr a)
    by (intros p; now exists (PrefixLines p)).
  unfold handleKeyDown.
  destruct (ctrlKey e || metaKey e)%bool, (shiftKey e); simpl; auto.
  - unfold shiftCtrlShortcuts.
    repeat match goal with
           | |- context [if ?b then _ else _] => destruct b
           end; auto.
  - unfold ctrlShortcuts.
    repeat match goal with
           | |- context [if ?b then _ else _] => destruct b
           end; auto.
Qed.

Lemma step_bounded (a : App) (ev : event) : bounded a -> bounded (step a ev).
Proof.
  intros H. destruct ev as [prompt e | value | s e]; simpl.
  - destruct (handleKeyDown_cases prompt e a)
      as [-> | [-> | [-> | [tr ->]]]].
    + exact H.
    + now apply handleUndo_bounded.
    + now apply handleRedo_bounded.
    + now apply applyTransform_bounded.
  - exact H.
  - exact H.
Qed.

Lemma run_bounded (evs : list event) :
  forall a, bounded a -> bounded (run evs a).
Proof.
  induction evs as [|ev evs IH]; intros a H; simpl.
  - exact H.
  - apply IH, step_bounded, H.
Qed.

Lemma saveHistory_bounded (a : App) : bounded a -> bounded (saveHistory a).
Proof.
  unfold bounded. intros H.
  rewrite saveHistory_undoStack by lia.
  rewrite length_skipn, last_length. cbn [redoStack saveHistory List.length].
  lia.
Qed.

Lemma applyOps_bounded (ops : list historyOp) :
  forall a, bounded a -> bounded (fold_left applyOp ops a).
Proof.
  induction ops as [|op ops IH]; intros a H; simpl.
  - exact H.
  - apply IH. destruct op; simpl.
    + now apply saveHistory_bounded.
    + now apply handleUndo_bounded.
    + now apply handleRedo_bounded.
    + exact H.
Qed.

Lemma applyEdit_undoStack (ed : edit) (a : App) :
  undoStack (applyEdit ed a) = undoStack (saveHistory a).
Proof.
  unfold applyEdit.
  now destruct (applyTransform_undoStack (editTransform ed)
                  (select (editStart ed) (editEnd ed) a)) as [-> _].
Qed.

Lemma length_preimages (eds : list edit) :
  forall a, List.length (preimages eds a) = List.length eds.
Proof. induction eds as [|ed eds IH]; intros a; simpl; [|rewrite IH]; reflexivity. Qed.

(** After a run of edits the undo stack holds the last 100 of the
    entries it had and the buffers the edits were applied to. *)
Lemma runEdits_undoStack (eds : list edit) :
  forall a,
    List.length (undoStack a) <= 100 ->
    undoStack (runEdits eds a)
    = skipn (List.length (undoStack a) + List.length eds - 100)
        (undoStack a ++ preimages eds a).
Proof.
  induction eds as [|ed eds IH]; intros a H.
  - simpl. rewrite app_nil_r.
    replace (List.length (undoStack a) + 0 - 100) with 0 by lia.
    reflexivity.
  - change (runEdits (ed :: eds) a) with (runEdits eds (applyEdit ed a)).
    assert (E := applyEdit_undoStack ed a).
    rewrite saveHistory_undoStack in E by exact H.
    assert (L : List.length (undoStack (applyEdit ed a))
                = List.length (undoStack a) + 1
                  - (List.length (undoStack a) + 1 - 100)).
    { rewrite E, length_skipn, last_length. lia. }
    rewrite IH by lia.
    rewrite E at 2.
    change (preimages (ed :: eds) a)
      with (text a :: preimages eds (applyEdit ed a)).
    replace (undoStack a ++ text a :: preimages eds (applyEdit ed a))
      with ((undoStack a ++ [text a]) ++ preimages eds (applyEdit ed a))
      by (now rewrite <- app_assoc).
    set (P := preimages eds (applyEdit ed a)).
    set (U := undoStack a ++ [text a]).
    set (k := List.length (undoStack a) + 1 - 100) in *.
    assert (Hk : skipn k U ++ P = skipn k (U ++ P)).
    { rewrite skipn_app.
      replace (k - List.length U) with 0; [reflexivity|].
      unfold U. rewrite last_length. lia. }
    rewrite Hk, skipn_skipn. f_equal. simpl List.length. lia.
Qed.

Lemma handleUndo_incl (a : App) :
  incl (text (handleUndo a) :: undoStack (handleUndo a))
    (text a :: undoStack a).
Proof.
  destruct (snoc_cases (undoStack a)) as [E | [u [x E]]].
  - rewrite handleUndo_nil by exact E. apply incl_refl.
  - rewrite (handleUndo_snoc a u x E). simpl. rewrite E.
    intros y [<- | Hy]; right; apply in_or_app; [right | left]; simpl; auto.
Qed.

(** Repeated undo only shows the buffer or an entry of the undo stack. *)
Lemma undo_reaches (k : nat) (a : App) :
  incl (text (Nat.iter k handleUndo a) :: undoStack (Nat.iter k handleUndo a))
    (text a :: undoStack a).
Proof.
  induction k as [|k IH]; simpl.
  - apply incl_refl.
  - eapply incl_tran; [apply handleUndo_incl | exact IH].
Qed.

Lemma NoDup_app_disjoint {A} (l l' : list A) (x : A) :
  NoDup (l ++ l') -> In x l -> In x l' -> False.
Proof.
  induction l as [|y l IH]; simpl; intros N Hl Hl'; [contradiction|].
  inversion N as [|? ? Hy N']; subst.
  destruct Hl as [-> | Hl].
  - apply Hy, in_or_app. now right.
  - now apply IH.
Qed.

Lemma nodupb_sound (l : list string) : nodupb l = true -> NoDup l.
Proof.
  induction l as [|x l IH]; simpl; intros H; constructor.
  - apply andb_prop in H as [H _]. apply negb_true_iff in H.
    intros Hin.
    assert (E : existsb (String.eqb x) l = true).
    { apply existsb_exists. exists x. split; [exact Hin|]. apply String.eqb_refl. }
    congruence.
  - apply andb_prop in H as [_ H]. now apply IH.
Qed.

End Bound.

(** C4: from empty stacks, after any sequence of [saveHistory],
    [handleUndo] and [handleRedo] (the buffer changing in between), and
    after any sequence of events (key presses with any answers to the
    prompts, typing, moving the selection), the undo stack holds at most
    100 entries; [saveHistory] on a full stack drops
    the oldest entry and pushes the buffer; after 150 edits the stack
    holds exactly 100 entries, the buffers the last 100 edits were applied
    to, and when the 150 buffers and the final one are pairwise distinct,
    no number of undos brings back one of the oldest 50. *)
Theorem undo_stack_bounded :
  (forall ops t s e,
     List.length (undoStack (fold_left applyOp ops (editor t s e))) <= 100)
  /\ (forall evs t s e,
       List.length (undoStack (run evs (editor t s e))) <= 100)
  /\ (forall a,
       List.length (undoStack a) = 100 ->
       undoStack (saveHistory a) = (tl (undoStack a) ++ [text a])%list)
  /\ (forall eds t s e,
       List.length eds = 150 ->
       List.length (undoStack (runEdits eds (editor t s e))) = 100
       /\ undoStack (runEdits eds (editor t s e))
          = skipn 50 (preimages eds (editor t s e))
       /\ (NoDup (preimages eds (editor t s e)
                  ++ [text (runEdits eds (editor t s e))])%list ->
           forall k b,
             In b (firstn 50 (preimages eds (editor t s e))) ->
             text (Nat.iter k handleUndo (runEdits eds (editor t s e))) <> b)).
Proof.
  split; [|split; [|split]].
  - intros ops t s e.
    assert (H : bounded (fold_left applyOp ops (editor t s e))).
    { apply applyOps_bounded. unfold bounded. simpl. lia. }
    unfold bounded in H. lia.
  - intros evs t s e.
    assert (H : bounded (run evs (editor t s e))).
    { apply run_bounded. unfold bounded. simpl. lia. }
    unfold bounded in H. lia.
  - apply saveHistory_evicts.
  - intros eds t s e Hlen.
    assert (E : undoStack (runEdits eds (editor t s e))
                = skipn 50 (preimages eds (editor t s e))).
    { rewrite runEdits_undoStack by (simpl; lia).
      rewrite Hlen. reflexivity. }
    split; [|split].
    + rewrite E, length_skipn, length_preimages, Hlen. reflexivity.
    + exact E.
    + intros N k b Hb Hk.
      assert (Hin : In b (text (runEdits eds (editor t s e))
                          :: undoStack (runEdits eds (editor t s e)))).
      { apply (undo_reaches k). left. exact Hk. }
      rewrite E in Hin.
      rewrite <- (firstn_skipn 50 (preimages eds (editor t s e))) in N at 1.
      rewrite <- app_assoc in N.
      apply (NoDup_app_disjoint _ _ b N Hb).
      apply in_or_app. destruct Hin as [<- | Hin]; [right | left].
      * now left.
      * exact Hin.
Qed.

(** 150 presses of Ctrl+I from the empty buffer: the buffers "", "**",
    ..., are pairwise distinct, 100 entries are left, and undo never
    returns to one of the first 50 buffers. *)
Lemma undo_stack_bounded_witness :
  (List.length stars = 150
   /\ NoDup (preimages stars (editor "" 0 0)
             ++ [text (runEdits stars (editor "" 0 0))])%list)
  /\ List.length (undoStack (runEdits stars (editor "" 0 0))) = 100
  /\ (forall k b,
       In b (firstn 50 (preimages stars (editor "" 0 0))) ->
       text (Nat.iter k handleUndo (runEdits stars (editor "" 0 0))) <> b).
Proof.
  assert (N : NoDup (preimages stars (editor "" 0 0)
                     ++ [text (runEdits stars (editor "" 0 0))])%list)
    by (apply nodupb_sound; vm_compute; reflexivity).
  split; [split; [reflexivity | exact N]|].
  destruct (proj2 (proj2 (proj2 undo_stack_bounded)) stars "" 0 0 eq_refl)
    as [L [_ U]].
  split; [exact L | exact (U N)].
Defined.

(** ** The shortcut table *)

(** Each binding of the table invokes its transform: Ctrl with B, I, 1,
    2, 3, P, Q, K, Z, Y, and Ctrl+Shift with C, T, S, H; Ctrl+L wraps the
    selection in a link to the URL the prompt returned. *)
Theorem shortcut_table (prompt : string -> option string)
    (e : KeyboardEvent) (a : App) :
  (shortcut false "b" e -> handleKeyDown prompt e a = wrapSelection "**" None a)
  /\ (shortcut false "i" e ->
      handleKeyDown prompt e a = wrapSelection "*" None a)
  /\ (shortcut false "1" e ->
      handleKeyDown prompt e a = insertAtLineStart "# " a)
  /\ (shortcut false "2" e ->
      handleKeyDown prompt e a = insertAtLineStart "## " a)
  /\ (shortcut false "3" e ->
      handleKeyDown prompt e a = insertAtLineStart "### " a)
  /\ (shortcut false "p" e ->
      handleKeyDown prompt e a = insertAtLineStart "- " a)
  /\ (shortcut false "q" e ->
      handleKeyDown prompt e a = insertAtLineStart "> " a)
  /\ (shortcut false "k" e ->
      handleKeyDown prompt e a = wrapSelection "`" None a)
  /\ (shortcut false "z" e -> handleKeyDown prompt e a = handleUndo a)
  /\ (shortcut false "y" e -> handleKeyDown prompt e a = handleRedo a)
  /\ (shortcut true "c" e ->
      handleKeyDown prompt e a
      = wrapSelection (JS.nl ++ "```bash" ++ JS.nl)
          (Some (JS.nl ++ "```" ++ JS.nl)) a)
  /\ (shortcut true "t" e ->
      handleKeyDown prompt e a = insertAtLineStart "- [ ] " a)
  /\ (shortcut true "s" e ->
      handleKeyDown prompt e a = wrapSelection "~~" None a)
  /\ (shortcut true "h" e ->
      handleKeyDown prompt e a = insertAtLineStart ("---" ++ JS.nl) a)
  /\ (forall c url,
       shortcut false "l" e ->
       prompt "Enter URL:" = Some (String c url) ->
       handleKeyDown prompt e a
       = wrapSelection "[" (Some ("](" ++ String c url ++ ")")) a).
Proof.
  repeat split; intros;
    match goal with
    | H : shortcut false _ _ |- _ => rewrite (handleKeyDown_ctrl _ _ _ _ H)
    | H : shortcut true _ _ |- _ => rewrite (handleKeyDown_ctrlShift _ _ _ _ H)
    end; try reflexivity.
  rewrite ctrlShortcuts_link.
  match goal with H : prompt _ = _ |- _ => rewrite H end.
  reflexivity.
Qed.

(** Ctrl+B and Ctrl+L on "hello world" with "hello" selected. *)
Lemma shortcut_table_witness :
  text (handleKeyDown cancelled (ctrl "B") helloWorld) = "**hello** world"
  /\ text (handleKeyDown (answering "u") (ctrl "L") helloWorld)
     = "[hello](u) world".
Proof.
  split.
  - rewrite (proj1 (shortcut_table cancelled (ctrl "B") helloWorld));
      [reflexivity | repeat split].
  - destruct (shortcut_table (answering "u") (ctrl "L") helloWorld)
      as (_ & _ & _ & _ & _ & _ & _ & _ & _ & _ & _ & _ & _ & _ & H).
    rewrite (H "u"%char "");
      [reflexivity | repeat split | reflexivity].
Defined.

(** A key pressed without Ctrl or Cmd changes nothing. *)
Theorem no_modifier_noop (prompt : string -> option string)
    (e : KeyboardEvent) (a : App) :
  (ctrlKey e || metaKey e) = false -> handleKeyDown prompt e a = a.
Proof. intros H. unfold handleKeyDown. now rewrite H. Qed.

(** The key B alone. *)
Lemma no_modifier_noop_witness :
  handleKeyDown cancelled (mkKey false false false "b") helloWorld = helloWorld.
Proof.
  apply (no_modifier_noop cancelled (mkKey false false false "b") helloWorld).
  reflexivity.
Defined.

(** Every transform captures the history exactly once; undo and redo
    capture nothing. *)
Theorem capture_once (tr : transform) (a : App) :
  captures (applyTransform tr a) = S (captures a)
  /\ undoStack (applyTransform tr a) = undoStack (saveHistory a)
  /\ captures (handleUndo a) = captures a
  /\ captures (handleRedo a) = captures a.
Proof.
  split; [|split; [|split]].
  - destruct tr; reflexivity.
  - destruct tr; reflexivity.
  - destruct (snoc_cases (undoStack a)) as [E | [u [x E]]].
    + now rewrite handleUndo_nil.
    + now rewrite (handleUndo_snoc a u x E).
  - destruct (snoc_cases (redoStack a)) as [E | [r [x E]]].
    + now rewrite handleRedo_nil.
    + now rewrite (handleRedo_snoc a r x E).
Qed.

(** ** More on the wrap transform *)

Section Wrap.

Local Open Scope nat_scope.

Lemma substring_0_length (s : string) : substring 0 (String.length s) s = s.
Proof.
  rewrite <- (append_empty_r s) at 2. apply substring_append_prefix.
Qed.

Lemma substring_append (t : string) :
  forall n m k,
    substring n m t ++ substring (n + m) k t = substring n (m + k) t.
Proof.
  induction t as [|c t IH]; intros n m k.
  - destruct n, m, k; reflexivity.
  - destruct n as [|n].
    + destruct m as [|m]; simpl.
      * destruct k; reflexivity.
      * now rewrite <- (IH 0 m k).
    + simpl. apply IH.
Qed.

Lemma slice_append_l (p r : string) : JS.slice (p ++ r) 0 (String.length p) = p.
Proof.
  unfold JS.slice. rewrite length_append, Nat.min_0_l, Nat.min_l by lia.
  rewrite Nat.sub_0_r. apply substring_append_prefix.
Qed.

Lemma sliceFrom_append (p r : string) :
  JS.sliceFrom (p ++ r) (String.length p) = r.
Proof.
  unfold JS.sliceFrom, JS.slice. rewrite length_append.
  rewrite Nat.min_l, Nat.min_id by lia.
  replace (String.length p + String.length r - String.length p)
    with (String.length r) by lia.
  rewrite <- (Nat.add_0_r (String.length p)) at 1.
  rewrite substring_append_skip. apply substring_0_length.
Qed.

(** A buffer is what is before the selection, the selection and what is
    after it. *)
Lemma slice_split (t : string) (s e : nat) :
  s <= e -> e <= String.length t ->
  t = JS.slice t 0 s ++ JS.slice t s e ++ JS.sliceFrom t e.
Proof.
  intros Hse He. unfold JS.sliceFrom, JS.slice.
  rewrite Nat.min_0_l, Nat.min_id, !Nat.min_l by lia.
  rewrite Nat.sub_0_r.
  replace (substring s (e - s) t ++ substring e (String.length t - e) t)
    with (substring s (String.length t - s) t).
  2:{ replace e with (s + (e - s)) at 2 by lia.
      rewrite substring_append. f_equal. lia. }
  rewrite <- (Nat.add_0_l s) at 2.
  rewrite substring_append.
  replace (s + (String.length t - s)) with (String.length t) by lia.
  symmetry. apply substring_0_length.
Qed.

(** The wrap of the selection [sel] between [pre] and [post]. *)
Lemma wrapSelection_parts (pre sel post before : string)
    (after : option string) (undo redo : list string) (n : nat) :
  let a := mkApp (pre ++ sel ++ post) undo redo
             (mkTextarea (String.length pre)
                (String.length pre + String.length sel)) n in
  text (wrapSelection before after a)
  = pre ++ before ++ sel ++ orDefault after before ++ post
  /\ textareaRef (wrapSelection before after a)
     = mkTextarea (String.length pre + String.length before)
         (String.length pre + String.length before + String.length sel).
Proof.
  intros a. unfold wrapSelection; simpl.
  assert (Hsel : JS.slice (pre ++ sel ++ post) (String.length pre)
                   (String.length pre + String.length sel) = sel)
    by apply slice_append_middle.
  assert (Hpre : JS.slice (pre ++ sel ++ post) 0 (String.length pre) = pre)
    by apply slice_append_l.
  assert (Hpost : JS.sliceFrom (pre ++ sel ++ post)
                    (String.length pre + String.length sel) = post).
  { rewrite <- length_append, <- append_assoc. apply sliceFrom_append. }
  rewrite Hsel, Hpre, Hpost. split; reflexivity.
Qed.

(** A state with a valid selection, cut at the selection. *)
Lemma selection_parts (a : App) :
  selectionStart (textareaRef a) <= selectionEnd (textareaRef a) ->
  selectionEnd (textareaRef a) <= String.length (text a) ->
  exists pre sel post,
    a = mkApp (pre ++ sel ++ post) (undoStack a) (redoStack a)
          (mkTextarea (String.length pre)
             (String.length pre + String.length sel)) (captures a)
    /\ pre = JS.slice (text a) 0 (selectionStart (textareaRef a))
    /\ sel = JS.slice (text a) (selectionStart (textareaRef a))
               (selectionEnd (textareaRef a))
    /\ post = JS.sliceFrom (text a) (selectionEnd (textareaRef a)).
Proof.
  destruct a as [t undo redo [s e] n]; simpl. intros Hse He.
  exists (JS.slice t 0 s), (JS.slice t s e), (JS.sliceFrom t e).
  rewrite <- slice_split by assumption.
  rewrite !length_slice by lia.
  replace (s - 0) with s by lia. replace (s + (e - s)) with e by lia.
  repeat split.
Qed.

End Wrap.

(** For a selection [start <= end <= length], [wrapSelection] only
    inserts: the buffer grows by the lengths of [before] and [after], what
    was before the selection and what was after it are still there, taking
    the two insertions out gives the old buffer, and the selection it sets
    lies within the new buffer. *)
Theorem wrapSelection_frame (a : App) (before : string) (after : option string) :
  selectionStart (textareaRef a) <= selectionEnd (textareaRef a) ->
  selectionEnd (textareaRef a) <= String.length (text a) ->
  String.length (text (wrapSelection before after a))
  = String.length (text a) + String.length before
    + String.length (match after with
                     | Some given => given
                     | None => before
                     end)
  /\ JS.slice (text (wrapSelection before after a)) 0
       (selectionStart (textareaRef a))
     = JS.slice (text a) 0 (selectionStart (textareaRef a))
  /\ JS.sliceFrom (text (wrapSelection before after a))
       (selectionEnd (textareaRef a) + String.length before
        + String.length (match after with
                         | Some given => given
                         | None => before
                         end))
     = JS.sliceFrom (text a) (selectionEnd (textareaRef a))
  /\ JS.slice (text (wrapSelection before after a)) 0
       (selectionStart (textareaRef a))
     ++ JS.slice (text (wrapSelection before after a))
          (selectionStart (textareaRef a) + String.length before)
          (selectionEnd (textareaRef a) + String.length before)
     ++ JS.sliceFrom (text (wrapSelection before after a))
          (selectionEnd (textareaRef a) + String.length before
           + String.length (match after with
                         | Some given => given
                         | None => before
                         end))
     = text a
  /\ selectionStart (textareaRef (wrapSelection before after a))
     <= selectionEnd (textareaRef (wrapSelection before after a))
     <= String.length (text (wrapSelection before after a)).
Proof.
  intros Hse He.
  change (match after with
          | Some given => given
          | None => before
          end) with (orDefault after before).
  destruct (selection_parts a Hse He) as [pre [sel [post [E _]]]].
  rewrite E. cbn [text textareaRef selectionStart selectionEnd].
  destruct (wrapSelection_parts pre sel post before after
              (undoStack a) (redoStack a) (captures a)) as [Ht Hs].
  cbv zeta in Ht, Hs. rewrite Ht, Hs.
  cbn [selectionStart selectionEnd].
  set (aft := orDefault after before).
  assert (H1 : JS.slice (pre ++ before ++ sel ++ aft ++ post) 0
                 (String.length pre) = pre) by apply slice_append_l.
  assert (H2 : JS.slice (pre ++ before ++ sel ++ aft ++ post)
                 (String.length pre + String.length before)
                 (String.length pre + String.length sel + String.length before)
               = sel).
  { rewrite <- (append_assoc pre before).
    replace (String.length pre + String.length sel + String.length before)
      with (String.length (pre ++ before) + String.length sel)
      by (rewrite length_append; lia).
    rewrite <- length_append. apply slice_append_middle. }
  assert (H3 : JS.sliceFrom (pre ++ before ++ sel ++ aft ++ post)
                 (String.length pre + String.length sel + String.length before
                  + String.length aft) = post).
  { replace (pre ++ before ++ sel ++ aft ++ post)
      with ((pre ++ before ++ sel ++ aft) ++ post)
      by (now rewrite !append_assoc).
    replace (String.length pre + String.length sel + String.length before
             + String.length aft)
      with (String.length (pre ++ before ++ sel ++ aft))
      by (rewrite !length_append; lia).
    apply sliceFrom_append. }
  assert (H4 : JS.sliceFrom (pre ++ sel ++ post)
                 (String.length pre + String.length sel) = post).
  { rewrite <- length_append, <- append_assoc. apply sliceFrom_append. }
  rewrite H1, H2, H3, H4, slice_append_l.
  rewrite !length_append.
  repeat split; lia.
Qed.

(** Ctrl+B on "hello world" with "hello" selected. *)
Lemma wrapSelection_frame_witness :
  (0 <= 5 /\ 5 <= 11)
  /\ String.length (text (wrapSelection "**" None helloWorld)) = 11 + 2 + 2
  /\ JS.sliceFrom (text (wrapSelection "**" None helloWorld)) (5 + 2 + 2)
     = " world".
Proof.
  split; [lia|].
  destruct (wrapSelection_frame helloWorld "**" None) as (L & _ & P & _);
    [simpl; lia | simpl; lia |].
  split; [exact L | exact P].
Defined.

(** Wraps nest: after a wrap the selection is the text that was wrapped,
    so a second wrap goes between the first pair of markers and that
    text. *)
Theorem wrapSelection_nests (a : App) (before1 before2 : string)
    (after1 after2 : option string) :
  selectionStart (textareaRef a) <= selectionEnd (textareaRef a) ->
  selectionEnd (textareaRef a) <= String.length (text a) ->
  text (wrapSelection before2 after2 (wrapSelection before1 after1 a))
  = JS.slice (text a) 0 (selectionStart (textareaRef a))
      ++ before1 ++ before2
      ++ JS.slice (text a) (selectionStart (textareaRef a))
           (selectionEnd (textareaRef a))
      ++ match after2 with
         | Some given => given
         | None => before2
         end
      ++ match after1 with
         | Some given => given
         | None => before1
         end
      ++ JS.sliceFrom (text a) (selectionEnd (textareaRef a))
  /\ textareaRef
       (wrapSelection before2 after2 (wrapSelection before1 after1 a))
     = mkTextarea
         (selectionStart (textareaRef a) + String.length before1
          + String.length before2)
         (selectionEnd (textareaRef a) + String.length before1
          + String.length before2).
Proof.
  intros Hse He.
  change (match after2 with
          | Some given => given
          | None => before2
          end) with (orDefault after2 before2).
  change (match after1 with
          | Some given => given
          | None => before1
          end) with (orDefault after1 before1).
  destruct (selection_parts a Hse He)
    as [pre [sel [post [E [Epre [Esel Epost]]]]]].
  assert (Ls : String.length pre = selectionStart (textareaRef a))
    by (rewrite Epre, length_slice; lia).
  assert (Le : String.length pre + String.length sel
               = selectionEnd (textareaRef a))
    by (rewrite Epre, Esel, !length_slice; lia).
  rewrite <- Epre, <- Esel, <- Epost, <- Le, <- Ls. rewrite E.
  destruct (wrapSelection_parts pre sel post before1 after1
              (undoStack a) (redoStack a) (captures a)) as [Ht Hs].
  cbv zeta in Ht, Hs.
  set (a1 := wrapSelection before1 after1 _) in *.
  assert (E1 : a1 = mkApp ((pre ++ before1) ++ sel
                           ++ (orDefault after1 before1 ++ post))
                      (undoStack a1) (redoStack a1)
                      (mkTextarea (String.length (pre ++ before1))
                         (String.length (pre ++ before1) + String.length sel))
                      (captures a1)).
  { destruct a1 as [t1 u1 r1 ta1 n1]; simpl in *.
    rewrite Ht, Hs, length_append, append_assoc. reflexivity. }
  rewrite E1.
  destruct (wrapSelection_parts (pre ++ before1) sel
              (orDefault after1 before1 ++ post) before2 after2
              (undoStack a1) (redoStack a1) (captures a1)) as [Ht2 Hs2].
  cbv zeta in Ht2, Hs2. rewrite Ht2, Hs2. split.
  - now rewrite !append_assoc.
  - rewrite length_append. f_equal; lia.
Qed.

(** Ctrl+B then Ctrl+I on "hello world" with "hello" selected. *)
Lemma wrapSelection_nests_witness :
  text (handleKeyDown cancelled (ctrl "i")
          (handleKeyDown cancelled (ctrl "b") helloWorld))
  = "***hello*** world".
Proof.
  refine (proj1 (wrapSelection_nests helloWorld "**" "*" None None _ _));
    simpl; lia.
Defined.

(** ** More on the history *)

Section UndoRedo.

Local Open Scope list_scope.
Local Open Scope nat_scope.

(** [k + 1] undos reach the entry that has [k] entries above it. *)
Lemma undo_iter (k : nat) :
  forall a u1 x u2,
    undoStack a = u1 ++ x :: u2 -> List.length u2 = k ->
    text (Nat.iter (S k) handleUndo a) = x
    /\ undoStack (Nat.iter (S k) handleUndo a) = u1.
Proof.
  induction k as [|k IH]; intros a u1 x u2 E L.
  - destruct u2; [|discriminate L]. simpl.
    rewrite (handleUndo_snoc a u1 x E). split; reflexivity.
  - destruct (snoc_cases u2) as [-> | [u2' [y ->]]]; [discriminate L|].
    rewrite last_length in L. injection L as L.
    rewrite Nat.iter_succ_r.
    apply (IH (handleUndo a) u1 x u2'); [|exact L].
    rewrite (handleUndo_snoc a (u1 ++ x :: u2') y); [reflexivity|].
    rewrite E, <- app_assoc. reflexivity.
Qed.

Lemma undo_then_redo (a : App) :
  undoStack a <> [] -> handleRedo (handleUndo a) = a.
Proof.
  intros H. destruct (snoc_cases (undoStack a)) as [E | [u [x E]]];
    [contradiction|].
  rewrite (handleUndo_snoc a u x E).
  rewrite (handleRedo_snoc _ (redoStack a) (text a)) by reflexivity.
  destruct a; simpl in *. now rewrite E.
Qed.

Lemma redo_then_undo (a : App) :
  redoStack a <> [] -> handleUndo (handleRedo a) = a.
Proof.
  intros H. destruct (snoc_cases (redoStack a)) as [E | [r [x E]]];
    [contradiction|].
  rewrite (handleRedo_snoc a r x E).
  rewrite (handleUndo_snoc _ (undoStack a) (text a)) by reflexivity.
  destruct a; simpl in *. now rewrite E.
Qed.

Lemma length_undoStack_handleUndo (a : App) :
  List.length (undoStack (handleUndo a)) = List.length (undoStack a) - 1.
Proof.
  destruct (snoc_cases (undoStack a)) as [E | [u [x E]]].
  - rewrite handleUndo_nil by exact E. rewrite E. reflexivity.
  - rewrite (handleUndo_snoc a u x E), E, last_length. simpl. lia.
Qed.

Lemma undos_then_redos (k : nat) :
  forall a, k <= List.length (undoStack a) ->
    Nat.iter k handleRedo (Nat.iter k handleUndo a) = a.
Proof.
  induction k as [|k IH]; intros a H; [reflexivity|].
  rewrite (Nat.iter_succ_r k App handleUndo a).
  rewrite (Nat.iter_succ k App handleRedo).
  rewrite IH by (rewrite length_undoStack_handleUndo; lia).
  apply undo_then_redo. destruct (undoStack a); [simpl in H; lia | discriminate].
Qed.

End UndoRedo.

(** Undo and redo are inverse to each other on the buffer and the two
    stacks: with an entry on the undo stack, undo then redo gives them
    back, and with an entry on the redo stack, redo then undo does. *)
Theorem undo_redo_inverse (a : App) :
  (undoStack a <> [] ->
   text (handleRedo (handleUndo a)) = text a
   /\ undoStack (handleRedo (handleUndo a)) = undoStack a
   /\ redoStack (handleRedo (handleUndo a)) = redoStack a)
  /\ (redoStack a <> [] ->
      text (handleUndo (handleRedo a)) = text a
      /\ undoStack (handleUndo (handleRedo a)) = undoStack a
      /\ redoStack (handleUndo (handleRedo a)) = redoStack a).
Proof.
  split; intros H.
  - rewrite undo_then_redo by exact H. repeat split.
  - rewrite redo_then_undo by exact H. repeat split.
Qed.

(** One entry on each stack. *)
Lemma undo_redo_inverse_witness :
  (text (handleRedo (handleUndo (mkApp "b" ["a"] ["c"] (mkTextarea 0 0) 0)))
   = "b"
   /\ undoStack
        (handleRedo (handleUndo (mkApp "b" ["a"] ["c"] (mkTextarea 0 0) 0)))
      = ["a"]
   /\ redoStack
        (handleRedo (handleUndo (mkApp "b" ["a"] ["c"] (mkTextarea 0 0) 0)))
      = ["c"])
  /\ (text (handleUndo (handleRedo (mkApp "b" ["a"] ["c"] (mkTextarea 0 0) 0)))
      = "b"
      /\ undoStack
           (handleUndo (handleRedo (mkApp "b" ["a"] ["c"] (mkTextarea 0 0) 0)))
         = ["a"]
      /\ redoStack
           (handleUndo (handleRedo (mkApp "b" ["a"] ["c"] (mkTextarea 0 0) 0)))
         = ["c"]).
Proof.
  split.
  - apply (proj1 (undo_redo_inverse (mkApp "b" ["a"] ["c"] (mkTextarea 0 0) 0))).
    discriminate.
  - apply (proj2 (undo_redo_inverse (mkApp "b" ["a"] ["c"] (mkTextarea 0 0) 0))).
    discriminate.
Defined.

(** As many undos as the undo stack has entries, followed by as many
    redos, give back the buffer and the two stacks; and up to 100 edits
    made in a fresh editor are undone one by one back to the buffer it
    started with, and redone to the buffer and the stacks they had
    reached. *)
Theorem undo_all_redo_all :
  (forall k a,
     k <= List.length (undoStack a) ->
     text (Nat.iter k handleRedo (Nat.iter k handleUndo a)) = text a
     /\ undoStack (Nat.iter k handleRedo (Nat.iter k handleUndo a))
        = undoStack a
     /\ redoStack (Nat.iter k handleRedo (Nat.iter k handleUndo a))
        = redoStack a)
  /\ (forall eds t s e,
       List.length eds <= 100 ->
       text (Nat.iter (List.length eds) handleUndo (runEdits eds (editor t s e)))
       = t
       /\ text (Nat.iter (List.length eds) handleRedo
                  (Nat.iter (List.length eds) handleUndo
                     (runEdits eds (editor t s e))))
          = text (runEdits eds (editor t s e))
       /\ undoStack (Nat.iter (List.length eds) handleRedo
                       (Nat.iter (List.length eds) handleUndo
                          (runEdits eds (editor t s e))))
          = undoStack (runEdits eds (editor t s e))
       /\ redoStack (Nat.iter (List.length eds) handleRedo
                       (Nat.iter (List.length eds) handleUndo
                          (runEdits eds (editor t s e))))
          = redoStack (runEdits eds (editor t s e))).
Proof.
  split.
  - intros k a H. rewrite undos_then_redos by exact H. repeat split.
  - intros eds t s e H.
    assert (E : undoStack (runEdits eds (editor t s e))
                = preimages eds (editor t s e)).
    { rewrite runEdits_undoStack by (simpl; lia). simpl List.length.
      replace (0 + List.length eds - 100) with 0 by lia. reflexivity. }
    split.
    + destruct eds as [|ed eds]; [reflexivity|].
      apply (undo_iter (List.length eds) _ []
               t (preimages eds (applyEdit ed (editor t s e)))).
      * exact E.
      * apply length_preimages.
    + rewrite undos_then_redos by (rewrite E, length_preimages; lia).
      repeat split.
Qed.

(** Three presses of Ctrl+I from the empty buffer, undone and redone. *)
Lemma undo_all_redo_all_witness :
  text (Nat.iter 3 handleUndo (runEdits (firstn 3 stars) (editor "" 0 0))) = ""
  /\ text (Nat.iter 3 handleRedo
             (Nat.iter 3 handleUndo (runEdits (firstn 3 stars) (editor "" 0 0))))
     = "******".
Proof.
  destruct (proj2 undo_all_redo_all (firstn 3 stars) "" 0 0) as (U & R & _);
    [simpl; lia|].
  split; [exact U|].
  change (List.length (firstn 3 stars)) with 3 in R.
  rewrite R. reflexivity.
Defined.

(** Typing does not touch the history: text typed after an edit takes the
    place of the edit's result (undo goes to the buffer before the edit,
    redo comes back to the typed text), and text typed after an undo is
    pushed on the undo stack by the next redo, which still restores the
    undone buffer. *)
Theorem typing_not_captured (a : App) (ed : edit) (typed : string) :
  (text (handleUndo (step (applyEdit ed a) (Change typed))) = text a
   /\ redoStack (handleUndo (step (applyEdit ed a) (Change typed))) = [typed]
   /\ handleRedo (handleUndo (step (applyEdit ed a) (Change typed)))
      = step (applyEdit ed a) (Change typed))
  /\ (text (handleRedo (step (handleUndo (applyEdit ed a)) (Change typed)))
      = text (applyEdit ed a)
      /\ undoStack (handleRedo (step (handleUndo (applyEdit ed a)) (Change typed)))
         = (undoStack (handleUndo (applyEdit ed a)) ++ [typed])%list).
Proof.
  destruct (applyEdit_shape ed a) as [t [ta [u [E _]]]].
  rewrite E. cbn [step]. split.
  - change (setText typed (mkApp t (u ++ [text a]) [] ta (S (captures a))))
      with (mkApp typed (u ++ [text a]) [] ta (S (captures a))).
    rewrite (handleUndo_snoc _ u (text a)) by reflexivity. simpl.
    rewrite (handleRedo_snoc _ [] typed) by reflexivity. simpl.
    repeat split.
  - rewrite (handleUndo_snoc _ u (text a)) by reflexivity.
    unfold setText. cbn [text undoStack redoStack textareaRef captures].
    rewrite (handleRedo_snoc _ [] t) by reflexivity.
    split; reflexivity.
Qed.

(** From empty stacks, whatever the events, the undo stack and the redo
    stack hold at most 100 entries together; so the redo stack too never
    holds more than 100. *)
Theorem history_bounded (evs : list event) (t : string) (s e : nat) :
  List.length (undoStack (run evs (editor t s e)))
  + List.length (redoStack (run evs (editor t s e))) <= 100
  /\ List.length (redoStack (run evs (editor t s e))) <= 100.
Proof.
  assert (H : bounded (run evs (editor t s e))).
  { apply run_bounded. unfold bounded. simpl. lia. }
  unfold bounded in H. split; lia.
Qed.

(** A key that the table does not bind changes nothing, with Ctrl and
    with Ctrl+Shift. *)
Theorem unbound_key_noop (prompt : string -> option string)
    (e : KeyboardEvent) (k : string) (a : App) :
  (shortcut false k e ->
   ~ In k ["b"; "i"; "1"; "2"; "3"; "p"; "q"; "k"; "l"; "z"; "y"] ->
   handleKeyDown prompt e a = a)
  /\ (shortcut true k e ->
      ~ In k ["c"; "t"; "s"; "i"; "h"; "g"] ->
      handleKeyDown prompt e a = a).
Proof.
  split; intros H N.
  - rewrite (handleKeyDown_ctrl _ _ _ _ H). unfold ctrlShortcuts.
    repeat match goal with
           | |- context [String.eqb k ?x] =>
               destruct (String.eqb_spec k x) as [-> | _];
               [exfalso; apply N; simpl; tauto|]
           end.
    reflexivity.
  - rewrite (handleKeyDown_ctrlShift _ _ _ _ H). unfold shiftCtrlShortcuts.
    repeat match goal with
           | |- context [String.eqb k ?x] =>
               destruct (String.eqb_spec k x) as [-> | _];
               [exfalso; apply N; simpl; tauto|]
           end.
    reflexivity.
Qed.

(** Ctrl+Shift+Z is not bound: after an undo it does not redo. *)
Lemma unbound_key_noop_witness :
  handleKeyDown cancelled (ctrlShift "Z")
    (handleUndo (wrapSelection "**" None helloWorld))
  = handleUndo (wrapSelection "**" None helloWorld).
Proof.
  apply (proj2 (unbound_key_noop cancelled (ctrlShift "Z") "z"
                  (handleUndo (wrapSelection "**" None helloWorld)))).
  - repeat split.
  - simpl. intros H.
    repeat (destruct H as [H | H]; [discriminate H|]). exact H.
Defined.

(** ** Numerals *)

Section Numerals.

Lemma parseDigits_uint (d : Decimal.uint) :
  forall m : nat,
    JS.parseDigits 10 (NilEmpty.string_of_uint d) (JS.Num (Z.of_nat m))
    = JS.Num (Z.of_nat (Nat.of_uint_acc d m)).
Proof.
  induction d; intros m; cbn [NilEmpty.string_of_uint Nat.of_uint_acc];
    [reflexivity|..];
    cbn [JS.parseDigits];
    match goal with
    | |- context [JS.digitValue ?c] =>
        let v := eval vm_compute in (JS.digitValue c) in
        change (JS.digitValue c) with v
    end;
    cbv beta iota;
    match goal with
    | |- context [(?k <? 10)%Z] =>
        let v := eval vm_compute in (k <? 10)%Z in
        change (k <? 10)%Z with v
    end;
    cbv beta iota; rewrite Nat.tail_mul_spec;
    match goal with
    | |- JS.parseDigits _ _ (JS.Num ?z)
         = JS.Num (Z.of_nat (Nat.of_uint_acc _ ?k)) =>
        replace z with (Z.of_nat k) by lia
    end; apply IHd.
Qed.

Lemma parseDigits_start (d : Decimal.uint) :
  d <> Decimal.Nil ->
  JS.parseDigits 10 (NilEmpty.string_of_uint d) JS.NaN
  = JS.parseDigits 10 (NilEmpty.string_of_uint d) (JS.Num 0).
Proof. destruct d; intros H; [contradiction|..]; reflexivity. Qed.

(** A numeral is read in radix 10: it has no white space, no sign and no
    "0x" in front. *)
Lemma parseInt_uint (d : Decimal.uint) :
  d <> Decimal.Nil ->
  JS.parseInt (Some (NilEmpty.string_of_uint d))
  = JS.parseDigits 10 (NilEmpty.string_of_uint d) JS.NaN.
Proof.
  destruct d as [|d|d|d|d|d|d|d|d|d|d]; intros H;
    [contradiction | destruct d | ..]; reflexivity.
Qed.

Lemma to_uint_nonnil (n : nat) : Nat.to_uint n <> Decimal.Nil.
Proof.
  rewrite <- (DecimalNat.Unsigned.of_to n) at 1.
  rewrite DecimalNat.Unsigned.to_of. unfold Decimal.unorm.
  destruct (Decimal.nzhead (Nat.to_uint n)); discriminate.
Qed.

Lemma parseInt_numberToString (n : nat) :
  JS.parseInt (Some (JS.numberToString n)) = JS.Num (Z.of_nat n).
Proof.
  unfold JS.numberToString.
  rewrite parseInt_uint, parseDigits_start by apply to_uint_nonnil.
  rewrite (parseDigits_uint _ 0).
  change (Nat.of_uint_acc (Nat.to_uint n) 0) with (Nat.of_uint (Nat.to_uint n)).
  now rewrite DecimalNat.Unsigned.of_to.
Qed.

End Numerals.

(** For [n] up to 2^53, the range in which every integer is a number
    that [parseInt] can return, what [parseInt] reads from the decimal
    numeral of [n], as a template literal writes it, is [n]; so the table
    shortcut, given the numerals of [cols] and [rows], inserts the table
    of [cols] columns and [rows] data rows when both are positive, and
    nothing when one is 0. *)
Theorem parseInt_numeral (prompt : string -> option string)
    (e : KeyboardEvent) (a : App) (cols rows : nat) :
  (Z.of_nat cols <= 2 ^ 53)%Z ->
  (Z.of_nat rows <= 2 ^ 53)%Z ->
  JS.parseInt (Some (JS.numberToString cols)) = JS.Num (Z.of_nat cols)
  /\ (shortcut true "g" e ->
      prompt "Columns?" = Some (JS.numberToString cols) ->
      prompt "Rows?" = Some (JS.numberToString rows) ->
      handleKeyDown prompt e a
      = if (0 <? cols)%nat && (0 <? rows)%nat
        then wrapSelection (buildTable cols rows) (Some "") a
        else a).
Proof.
  intros _ _.
  split; [apply parseInt_numberToString|].
  intros H Hc Hr.
  rewrite (handleKeyDown_ctrlShift _ _ _ _ H), shiftCtrlShortcuts_table.
  rewrite Hc, Hr, !parseInt_numberToString. cbn [JS.gt0 iterations].
  rewrite !Nat2Z.id.
  replace (0 <? Z.of_nat cols)%Z with (0 <? cols)%nat.
  2:{ destruct cols; reflexivity. }
  replace (0 <? Z.of_nat rows)%Z with (0 <? rows)%nat.
  2:{ destruct rows; reflexivity. }
  reflexivity.
Qed.

(** Ctrl+Shift+G answering the numerals of 12 and 3: twelve columns. *)
Lemma parseInt_numeral_witness :
  JS.parseInt (Some "12") = JS.Num 12
  /\ handleKeyDown (dimensions "12" "3") (ctrlShift "g") helloWorld
     = wrapSelection (buildTable 12 3) (Some "") helloWorld.
Proof.
  destruct (parseInt_numeral (dimensions "12" "3") (ctrlShift "g")
              helloWorld 12 3) as [P T];
    [vm_compute; discriminate | vm_compute; discriminate |].
  split; [exact P|].
  apply T; repeat split.
Defined.

(** ** Lines *)

Section Lines.

Local Open Scope nat_scope.

Lemma split_nonempty (s : string) : JS.split JS.newline s <> [].
Proof.
  destruct s as [|c s]; simpl; [discriminate|].
  destruct (Ascii.eqb c JS.newline); [discriminate|].
  destruct (JS.split JS.newline s); discriminate.
Qed.

Lemma join_cons (x : string) (l : list string) :
  l <> [] -> JS.join JS.nl (x :: l) = x ++ JS.nl ++ JS.join JS.nl l.
Proof. destruct l; [contradiction | reflexivity]. Qed.

(** Joining the lines of a buffer gives the buffer. *)
Lemma join_split (s : string) : JS.join JS.nl (JS.split JS.newline s) = s.
Proof.
  induction s as [|c s IH]; [reflexivity|].
  cbn [JS.split]. destruct (Ascii.eqb c JS.newline) eqn:E.
  - apply Ascii.eqb_eq in E. subst c.
    rewrite join_cons by apply split_nonempty. now rewrite IH.
  - destruct (JS.split JS.newline s) as [|piece pieces] eqn:Es.
    + now destruct (split_nonempty s).
    + destruct pieces as [|piece' pieces].
      * simpl in *. now rewrite IH.
      * rewrite join_cons in * by discriminate.
        change (String c piece ++ JS.nl ++ JS.join JS.nl (piece' :: pieces))
          with (String c (piece ++ JS.nl ++ JS.join JS.nl (piece' :: pieces))).
        now rewrite IH.
Qed.

Lemma span_split (s : string) :
  span (JS.split JS.newline s) = S (String.length s).
Proof.
  induction s as [|c s IH]; [reflexivity|].
  cbn [JS.split]. destruct (Ascii.eqb c JS.newline).
  - simpl in *. now rewrite IH.
  - destruct (JS.split JS.newline s) as [|piece pieces].
    + discriminate IH.
    + simpl in *. lia.
Qed.

Lemma span_app (l l' : list string) : span (l ++ l')%list = span l + span l'.
Proof. induction l as [|x l IH]; simpl; [reflexivity | rewrite IH; lia]. Qed.

(** A piece without newline, a newline, and the rest. *)
Lemma split_append_nl (s r : string) :
  lacks JS.newline s = true ->
  JS.split JS.newline (s ++ JS.nl ++ r) = s :: JS.split JS.newline r.
Proof.
  induction s as [|c s IH]; intros H.
  - reflexivity.
  - cbn [lacks] in H. apply andb_prop in H as [Hc Hs].
    apply negb_true_iff in Hc.
    change (String c s ++ JS.nl ++ r) with (String c (s ++ JS.nl ++ r)).
    cbn [JS.split]. rewrite Hc, (IH Hs). reflexivity.
Qed.

Lemma split_rows (rows : list string) :
  Forall (fun r => lacks JS.newline r = true) rows ->
  JS.split JS.newline (flatten (map (fun r => r ++ JS.nl) rows))
  = (rows ++ [""])%list.
Proof.
  induction 1 as [|r rows Hr _ IH]; [reflexivity|].
  rewrite map_cons, flatten_cons, append_assoc.
  rewrite split_append_nl by exact Hr. now rewrite IH.
Qed.

Lemma lacks_uint_newline (d : Decimal.uint) :
  lacks JS.newline (NilEmpty.string_of_uint d) = true.
Proof. induction d; simpl; auto. Qed.

Lemma lacks_tableRow (cells : list string) :
  Forall (fun cell => lacks JS.newline cell = true) cells ->
  lacks JS.newline (tableRow cells) = true.
Proof.
  intros H. unfold tableRow. rewrite lacks_append.
  rewrite lacks_flatten; [reflexivity|].
  apply Forall_forall. intros s Hs.
  apply in_map_iff in Hs as [cell [<- Hc]].
  rewrite lacks_append. rewrite Forall_forall in H.
  now rewrite (H cell Hc).
Qed.

Lemma lacks_tableRows (cols rows : nat) :
  Forall (fun r => lacks JS.newline r = true) (tableRows cols rows).
Proof.
  unfold tableRows. repeat constructor.
  - apply lacks_tableRow, Forall_forall. intros cell Hc.
    apply in_map_iff in Hc as [n [<- _]].
    unfold headerCell, JS.numberToString.
    now rewrite lacks_append, lacks_uint_newline.
  - apply lacks_tableRow, Forall_forall. intros cell Hc.
    apply repeat_spec in Hc. now subst cell.
  - apply Forall_forall. intros r Hr. apply repeat_spec in Hr. subst r.
    apply lacks_tableRow, Forall_forall. intros cell Hc.
    apply repeat_spec in Hc. now subst cell.
Qed.

Variable prefix : string.
Variables start finish : nat.

Lemma mapLines_keptOrPrefixed (lines : list string) :
  forall c,
    Forall2 (keptOrPrefixed prefix) lines
      (mapLines prefix start finish c lines).
Proof.
  induction lines as [|line rest IH]; intros c; cbn [mapLines]; constructor.
  - destruct ((start <=? c + String.length line) && (c <=? finish));
      [now right | now left].
  - apply IH.
Qed.

(** The line that holds the start of the selection is prefixed, and the
    lines before it are passed over. *)
Lemma mapLines_caret (lines : list string) :
  forall c,
    c <= start -> start <= finish -> start < c + span lines ->
    exists pre line post,
      lines = (pre ++ line :: post)%list
      /\ c + span pre <= start <= c + span pre + String.length line
      /\ mapLines prefix start finish c lines
         = (pre ++ (prefix ++ line)%string
              :: mapLines prefix start finish
                   (c + span pre + (String.length (prefix ++ line)%string + 1))
                   post)%list.
Proof.
  induction lines as [|line rest IH]; intros c Hc Hse Hs.
  - simpl in Hs. lia.
  - destruct (start <=? c + String.length line) eqn:E.
    + apply Nat.leb_le in E.
      exists [], line, rest. cbn [span fold_right app mapLines].
      rewrite Nat.add_0_r.
      replace (start <=? c + String.length line) with true
        by (symmetry; apply Nat.leb_le; lia).
      replace (c <=? finish) with true by (symmetry; apply Nat.leb_le; lia).
      repeat split; lia.
    + apply Nat.leb_gt in E.
      destruct (IH (c + (String.length line + 1))) as [pre [l [post [El [Hl Hm]]]]].
      * lia.
      * exact Hse.
      * cbn [span fold_right] in Hs. fold (span rest) in Hs. lia.
      * exists (line :: pre), l, post. subst rest.
        cbn [span fold_right app mapLines]. fold (span pre).
        replace (start <=? c + String.length line) with false
          by (symmetry; apply Nat.leb_gt; lia).
        cbn [andb]. rewrite Hm.
        replace (c + (String.length line + 1 + span pre))
          with (c + (String.length line + 1) + span pre) by lia.
        repeat split; lia.
Qed.

End Lines.

(** The lines of the table: splitting it at the newlines gives the header
    row, the divider row and the [rows] data rows, then an empty piece
    for the end: [rows + 3] pieces. *)
Theorem table_lines (cols rows : nat) :
  JS.split JS.newline (buildTable cols rows)
  = (tableRows cols rows ++ [""])%list
  /\ List.length (JS.split JS.newline (buildTable cols rows)) = rows + 3.
Proof.
  assert (E : JS.split JS.newline (buildTable cols rows)
              = (tableRows cols rows ++ [""])%list).
  { rewrite buildTable_rows. apply split_rows, lacks_tableRows. }
  split; [exact E|].
  rewrite E, last_length. unfold tableRows. simpl. rewrite repeat_length. lia.
Qed.

(** For a selection [start <= end] whose start is within the buffer,
    [insertAtLineStart] prefixes the line that holds the start of the
    selection, leaves the lines before it as they are, and leaves or
    prefixes each line after it: no line is lost, joined or reordered. *)
Theorem insertAtLineStart_caret_line (prefix : string) (a : App) :
  selectionStart (textareaRef a) <= selectionEnd (textareaRef a) ->
  selectionStart (textareaRef a) <= String.length (text a) ->
  exists pre line post post',
    text a = JS.join JS.nl (pre ++ line :: post)
    /\ JS.split JS.newline (text a) = (pre ++ line :: post)%list
    /\ (span pre <= selectionStart (textareaRef a)
        <= span pre + String.length line)%nat
    /\ text (insertAtLineStart prefix a)
       = JS.join JS.nl (pre ++ (prefix ++ line) :: post')
    /\ Forall2 (keptOrPrefixed prefix) post post'.
Proof.
  destruct a as [t undo redo [s e] n]; simpl. intros Hse Hs.
  destruct (mapLines_caret prefix s e (JS.split JS.newline t) 0)
    as [pre [line [post [El [Hl Hm]]]]].
  - lia.
  - exact Hse.
  - rewrite span_split. lia.
  - exists pre, line, post.
    eexists. rewrite Hm. repeat split.
    + rewrite <- El. symmetry. apply join_split.
    + exact El.
    + lia.
    + lia.
    + apply mapLines_keptOrPrefixed.
Qed.

(** The caret in line "b" of the three lines "a", "b", "c". *)
Lemma insertAtLineStart_caret_line_witness :
  exists pre line post post',
    abc = JS.join JS.nl (pre ++ line :: post)
    /\ JS.split JS.newline abc = (pre ++ line :: post)%list
    /\ (span pre <= 2 <= span pre + String.length line)%nat
    /\ text (insertAtLineStart "- " (editor abc 2 2))
       = JS.join JS.nl (pre ++ ("- " ++ line) :: post')
    /\ Forall2 (keptOrPrefixed "- ") post post'.
Proof.
  apply (insertAtLineStart_caret_line "- " (editor abc 2 2)); simpl; lia.
Defined.

(** ** More on the shortcuts *)

Section Lenient.

Lemma parseDigits_uint_then (c : ascii) (rest : string) (d : Decimal.uint) :
  JS.digitValue c = None ->
  forall m : nat,
    JS.parseDigits 10 (NilEmpty.string_of_uint d ++ String c rest)
      (JS.Num (Z.of_nat m))
    = JS.Num (Z.of_nat (Nat.of_uint_acc d m)).
Proof.
  intros Hc.
  induction d; intros m; cbn [NilEmpty.string_of_uint Nat.of_uint_acc];
    [cbn [append JS.parseDigits]; now rewrite Hc|..];
    cbn [append JS.parseDigits];
    match goal with
    | |- context [JS.digitValue ?x] =>
        let v := eval vm_compute in (JS.digitValue x) in
        change (JS.digitValue x) with v
    end;
    cbv beta iota;
    match goal with
    | |- context [(?k <? 10)%Z] =>
        let v := eval vm_compute in (k <? 10)%Z in
        change (k <? 10)%Z with v
    end;
    cbv beta iota; rewrite Nat.tail_mul_spec;
    match goal with
    | |- JS.parseDigits _ _ (JS.Num ?z)
         = JS.Num (Z.of_nat (Nat.of_uint_acc _ ?k)) =>
        replace z with (Z.of_nat k) by lia
    end; apply IHd.
Qed.

Lemma parseDigits_start_then (s : string) (d : Decimal.uint) :
  d <> Decimal.Nil ->
  JS.parseDigits 10 (NilEmpty.string_of_uint d ++ s) JS.NaN
  = JS.parseDigits 10 (NilEmpty.string_of_uint d ++ s) (JS.Num 0).
Proof. destruct d; intros H; [contradiction|..]; reflexivity. Qed.

Lemma parseInt_uint_then (c : ascii) (rest : string) (d : Decimal.uint) :
  JS.digitValue c = None ->
  d <> Decimal.Nil ->
  JS.parseInt (Some (NilEmpty.string_of_uint d ++ String c rest))
  = JS.parseDigits 10 (NilEmpty.string_of_uint d ++ String c rest) JS.NaN.
Proof.
  intros Hc H.
  destruct d as [|d|d|d|d|d|d|d|d|d|d];
    [contradiction | destruct d | ..]; try reflexivity.
  destruct c as [[] [] [] [] [] [] [] []];
    try discriminate Hc; reflexivity.
Qed.

Lemma parseInt_numeral_then (n : nat) (c : ascii) (rest : string) :
  JS.digitValue c = None ->
  JS.parseInt (Some (JS.numberToString n ++ String c rest))
  = JS.Num (Z.of_nat n).
Proof.
  intros Hc. unfold JS.numberToString.
  rewrite parseInt_uint_then, parseDigits_start_then
    by (try exact Hc; apply to_uint_nonnil).
  rewrite (parseDigits_uint_then c rest _ Hc 0).
  change (Nat.of_uint_acc (Nat.to_uint n) 0) with (Nat.of_uint (Nat.to_uint n)).
  now rewrite DecimalNat.Unsigned.of_to.
Qed.

End Lenient.

(** The counts of the table shortcut are read leniently: an answer made
    of a numeral (up to 2^53, the range in which every integer is a
    number that [parseInt] can return) followed by a character that is
    neither a letter nor a digit, and anything after it, counts as the
    numeral ("3 columns" is 3, "2.5" is 2). *)
Theorem table_counts_lenient (prompt : string -> option string)
    (e : KeyboardEvent) (a : App) (cols rows : nat)
    (c1 c2 : ascii) (rest1 rest2 : string) :
  (Z.of_nat cols <= 2 ^ 53)%Z ->
  (Z.of_nat rows <= 2 ^ 53)%Z ->
  JS.digitValue c1 = None ->
  JS.digitValue c2 = None ->
  shortcut true "g" e ->
  prompt "Columns?" = Some (JS.numberToString cols ++ String c1 rest1) ->
  prompt "Rows?" = Some (JS.numberToString rows ++ String c2 rest2) ->
  0 < cols -> 0 < rows ->
  JS.parseInt (prompt "Columns?") = JS.Num (Z.of_nat cols)
  /\ JS.parseInt (prompt "Rows?") = JS.Num (Z.of_nat rows)
  /\ handleKeyDown prompt e a
     = wrapSelection (buildTable cols rows) (Some "") a.
Proof.
  intros _ _ H1 H2 H Hc Hr Pc Pr.
  assert (Ec := parseInt_numeral_then cols c1 rest1 H1).
  assert (Er := parseInt_numeral_then rows c2 rest2 H2).
  rewrite <- Hc in Ec. rewrite <- Hr in Er.
  split; [exact Ec | split; [exact Er|]].
  rewrite (handleKeyDown_ctrlShift _ _ _ _ H), shiftCtrlShortcuts_table.
  rewrite Ec, Er. cbn [JS.gt0 iterations]. rewrite !Nat2Z.id.
  replace (0 <? Z.of_nat cols)%Z with true by (symmetry; apply Z.ltb_lt; lia).
  replace (0 <? Z.of_nat rows)%Z with true by (symmetry; apply Z.ltb_lt; lia).
  reflexivity.
Qed.

(** Ctrl+Shift+G answering "3 columns" and "2.5". *)
Lemma table_counts_lenient_witness :
  handleKeyDown (dimensions "3 columns" "2.5") (ctrlShift "g") helloWorld
  = wrapSelection (buildTable 3 2) (Some "") helloWorld.
Proof.
  apply (table_counts_lenient (dimensions "3 columns" "2.5") (ctrlShift "g")
           helloWorld 3 2 " "%char "."%char "columns" "5");
    try reflexivity; try lia; try (vm_compute; discriminate).
  repeat split.
Defined.

(** With a non-empty URL, Ctrl+L turns the selection [sel] into
    "[sel](url)": the URL is copied as it was typed, and the selection
    set is again [sel]. *)
Theorem link_shortcut (prompt : string -> option string)
    (e : KeyboardEvent) (a : App) (c : ascii) (url : string) :
  shortcut false "l" e ->
  prompt "Enter URL:" = Some (String c url) ->
  selectionStart (textareaRef a) <= selectionEnd (textareaRef a) ->
  selectionEnd (textareaRef a) <= String.length (text a) ->
  text (handleKeyDown prompt e a)
  = JS.slice (text a) 0 (selectionStart (textareaRef a))
      ++ "["
      ++ JS.slice (text a) (selectionStart (textareaRef a))
           (selectionEnd (textareaRef a))
      ++ "](" ++ String c url ++ ")"
      ++ JS.sliceFrom (text a) (selectionEnd (textareaRef a))
  /\ textareaRef (handleKeyDown prompt e a)
     = mkTextarea (selectionStart (textareaRef a) + 1)
         (selectionEnd (textareaRef a) + 1).
Proof.
  intros H Hp Hse He.
  rewrite (handleKeyDown_ctrl _ _ _ _ H), ctrlShortcuts_link, Hp.
  cbn [JS.truthy String.eqb negb].
  destruct (selection_parts a Hse He)
    as [pre [sel [post [E [Epre [Esel Epost]]]]]].
  assert (Ls : String.length pre = selectionStart (textareaRef a))
    by (rewrite Epre, length_slice; lia).
  assert (Le : String.length pre + String.length sel
               = selectionEnd (textareaRef a))
    by (rewrite Epre, Esel, !length_slice; lia).
  rewrite <- Epre, <- Esel, <- Epost, <- Le, <- Ls. rewrite E.
  destruct (wrapSelection_parts pre sel post "["
              (Some ("](" ++ String c url ++ ")"))
              (undoStack a) (redoStack a) (captures a)) as [Ht Hs].
  cbv zeta in Ht, Hs. rewrite Ht, Hs. cbn [orDefault]. split.
  - now rewrite !append_assoc.
  - cbn [String.length]. f_equal; lia.
Qed.

(** Ctrl+L on "hello world" with "hello" selected. *)
Lemma link_shortcut_witness :
  text (handleKeyDown (answering "http://a.b/c") (ctrl "l") helloWorld)
  = "[hello](http://a.b/c) world".
Proof.
  refine (proj1 (link_shortcut (answering "http://a.b/c") (ctrl "l")
                   helloWorld "h"%char "ttp://a.b/c" _ _ _ _));
    [repeat split | reflexivity | simpl; lia | simpl; lia].
Defined.

(** A key press does nothing, undoes, redoes, or makes one edit that
    captures the history once and that a single undo takes back. *)
Theorem key_press_undoable (prompt : string -> option string)
    (e : KeyboardEvent) (a : App) :
  handleKeyDown prompt e a = a
  \/ handleKeyDown prompt e a = handleUndo a
  \/ handleKeyDown prompt e a = handleRedo a
  \/ (captures (handleKeyDown prompt e a) = S (captures a)
      /\ redoStack (handleKeyDown prompt e a) = []
      /\ text (handleUndo (handleKeyDown prompt e a)) = text a).
Proof.
  destruct (handleKeyDown_cases prompt e a) as [H | [H | [H | [tr H]]]];
    [now left | now right; left | now right; right; left |].
  right; right; right. rewrite H.
  destruct (applyTransform_shape tr a) as [t [ta E]].
  destruct (saveHistory_top a) as [u Eu].
  rewrite E, Eu.
  rewrite (handleUndo_snoc _ u (text a)) by reflexivity.
  repeat split.
Qed.

(** After [n] edits in a fresh editor the undo stack holds the buffers
    the last [min n 100] edits were applied to. *)
Theorem undo_depth (eds : list edit) (t : string) (s e : nat) :
  List.length (undoStack (runEdits eds (editor t s e)))
  = Nat.min (List.length eds) 100
  /\ undoStack (runEdits eds (editor t s e))
     = skipn (List.length eds - 100) (preimages eds (editor t s e)).
Proof.
  assert (E : undoStack (runEdits eds (editor t s e))
              = skipn (List.length eds - 100) (preimages eds (editor t s e))).
  { rewrite runEdits_undoStack by (simpl; lia). reflexivity. }
  split; [|exact E].
  rewrite E, length_skipn, length_preimages. lia.
Qed.

(** Each line is tested at the offset it has in the buffer being
    produced: after the lines [l1], the count has advanced by the room
    their images take, prefixes included. *)
Theorem mapLines_offsets (prefix : string) (start finish : nat)
    (l1 l2 : list string) (c : nat) :
  mapLines prefix start finish c (l1 ++ l2)
  = (mapLines prefix start finish c l1
       ++ mapLines prefix start finish
            (c + span (mapLines prefix start finish c l1)) l2)%list.
Proof.
  revert c. induction l1 as [|line l1 IH]; intros c.
  - cbn [app mapLines span fold_right]. now rewrite Nat.add_0_r.
  - cbn [app mapLines].
    set (line' := if ((start <=? c + String.length line)
                      && (c <=? finish))%nat
                  then prefix ++ line else line).
    rewrite IH.
    change (span (line' :: mapLines prefix start finish
                             (c + (String.length line' + 1)) l1))
      with (String.length line' + 1
            + span (mapLines prefix start finish
                      (c + (String.length line' + 1)) l1)).
    do 3 f_equal. lia.
Qed.

Lemma split_lacks (s : string) :
  lacks JS.newline s = true -> JS.split JS.newline s = [s].
Proof.
  induction s as [|c s IH]; intros H; [reflexivity|].
  cbn [lacks] in H. apply andb_prop in H as [Hc Hs].
  apply negb_true_iff in Hc.
  cbn [JS.split]. now rewrite Hc, (IH Hs).
Qed.

(** In a buffer of two lines, with a selection that starts in the first
    line, the first line is prefixed, and the second line is prefixed only
    when the selection ends at least the length of the prefix past the
    start of the second line. *)
Theorem two_lines_prefix (prefix line1 line2 : string) (a : App) :
  text a = line1 ++ JS.nl ++ line2 ->
  lacks JS.newline line1 = true ->
  lacks JS.newline line2 = true ->
  selectionStart (textareaRef a) <= String.length line1 ->
  selectionStart (textareaRef a) <= selectionEnd (textareaRef a) ->
  text (insertAtLineStart prefix a)
  = prefix ++ line1 ++ JS.nl
      ++ (if (String.length line1 + 1 + String.length prefix
              <=? selectionEnd (textareaRef a))%nat
          then prefix ++ line2 else line2).
Proof.
  destruct a as [t undo redo [s e] n].
  cbn [text textareaRef selectionStart selectionEnd].
  intros -> H1 H2 Hs Hse.
  unfold insertAtLineStart, setText.
  cbn [text textareaRef selectionStart selectionEnd].
  rewrite split_append_nl, split_lacks by assumption.
  cbn [mapLines].
  replace (s <=? 0 + String.length line1)%nat with true
    by (symmetry; apply Nat.leb_le; lia).
  cbn [Nat.leb andb]. rewrite length_append.
  replace (s <=? 0 + (String.length prefix + String.length line1 + 1)
                 + String.length line2)%nat with true
    by (symmetry; apply Nat.leb_le; lia).
  cbn [Nat.leb andb].
  replace (0 + (String.length prefix + String.length line1 + 1))
    with (String.length line1 + 1 + String.length prefix) by lia.
  unfold JS.join. cbn [concat].
  now rewrite append_assoc.
Qed.

(** "ab" and "cd" with both lines selected up to "c": the selection
    overlaps the second line, which is left as it is. *)
Lemma two_lines_prefix_witness :
  text (insertAtLineStart "- " (editor ("ab" ++ JS.nl ++ "cd") 0 4))
  = "- ab" ++ JS.nl ++ "cd".
Proof.
  apply (two_lines_prefix "- " "ab" "cd" (editor ("ab" ++ JS.nl ++ "cd") 0 4));
    try reflexivity; simpl; lia.
Defined.
